(** * A shallow embedding of the crawler service

    The development follows the TypeScript sources: [utils.ts]
    (platform classifier, text normalizer, cookie normalizer), the five
    extraction strategies (Zhihu, Xiaohongshu, Twitter, Wechat, Generic)
    and the session orchestrator [BaseCrawler.crawl].

    JavaScript strings are sequences of UTF-16 code units; they are modelled
    as lists of [N], so that [length], [slice], [includes] and the
    whitespace class of [trim] and of the regular expression [\s] mean here
    what they mean in the source. *)

From Stdlib Require Import List NArith Bool Arith Lia String Ascii.
Import ListNotations.

Set Warnings "-abstract-large-number".

(** ** JavaScript strings and the string primitives the sources call *)

Module JS.

Definition str := list N.

(** An ASCII literal of the source, as code units. *)
Definition lit (s : string) : str :=
  List.map N_of_ascii (list_ascii_of_string s).

Definition eqb (a b : str) : bool :=
  if list_eq_dec N.eq_dec a b then true else false.

(** A string is truthy when it is not empty. *)
Definition truthy (s : str) : bool :=
  match s with [] => false | _ :: _ => true end.

(** [a || b] on strings, where [a] may be undefined or null. *)
Definition or_else (a : option str) (b : str) : str :=
  match a with
  | Some (c :: s) => c :: s
  | _ => b
  end.

(** WhiteSpace and LineTerminator of ECMAScript: the class [\s] of regular
    expressions, and what [trim] strips. *)
Definition is_ws (c : N) : bool :=
  ((9 <=? c) && (c <=? 13) || (c =? 32) || (c =? 160) || (c =? 5760)
   || (8192 <=? c) && (c <=? 8202) || (c =? 8232) || (c =? 8233)
   || (c =? 8239) || (c =? 8287) || (c =? 12288) || (c =? 65279))%N.

Definition SPACE : N := 32.
Definition NEWLINE : N := 10.

Fixpoint trimStart (s : str) : str :=
  match s with
  | [] => []
  | c :: s' => if is_ws c then trimStart s' else s
  end.

Fixpoint trimEnd (s : str) : str :=
  match s with
  | [] => []
  | c :: s' =>
      match trimEnd s' with
      | [] => if is_ws c then [] else [c]
      | t => c :: t
      end
  end.

Definition trim (s : str) : str := trimEnd (trimStart s).

Fixpoint startsWith (p s : str) : bool :=
  match p, s with
  | [], _ => true
  | _ :: _, [] => false
  | a :: p', b :: s' => (a =? b)%N && startsWith p' s'
  end.

Fixpoint includes (p s : str) : bool :=
  startsWith p s
  || match s with
     | [] => false
     | _ :: s' => includes p s'
     end.

(** [s.split(sep)] for a one-unit separator.  The array it returns is never
    empty: it is given as its first element and the rest, which is what the
    destructuring [[name, ...valueParts]] takes apart. *)
Fixpoint split (sep : N) (s : str) : str * list str :=
  match s with
  | [] => ([], [])
  | c :: s' =>
      let (h, t) := split sep s' in
      if (c =? sep)%N then ([], h :: t) else (c :: h, t)
  end.

Definition split_array (sep : N) (s : str) : list str :=
  let (h, t) := split sep s in h :: t.

Fixpoint join (sep : N) (parts : list str) : str :=
  match parts with
  | [] => []
  | [p] => p
  | p :: rest => p ++ sep :: join sep rest
  end.

(** [s.replace(/pat/g, rep)] for a pattern that is a literal, non-empty
    sequence of units: matches are taken left to right and do not overlap.
    [skip] counts the units of a match still to be passed over. *)
Fixpoint replaceAll_from (skip : nat) (pat rep s : str) : str :=
  match s with
  | [] => []
  | c :: s' =>
      match skip with
      | S k => replaceAll_from k pat rep s'
      | O =>
          if truthy pat && startsWith pat s
          then rep ++ replaceAll_from (List.length pat - 1) pat rep s'
          else c :: replaceAll_from 0 pat rep s'
      end
  end.

Definition replaceAll (pat rep s : str) : str := replaceAll_from 0 pat rep s.

(** [s.replace(pat, rep)] with a string pattern: the first occurrence only. *)
Fixpoint replaceFirst (pat rep s : str) : str :=
  if startsWith pat s then rep ++ skipn (List.length pat) s
  else match s with
       | [] => []
       | c :: s' => c :: replaceFirst pat rep s'
       end.

(** [s.slice(0, n)], on strings and on arrays. *)
Definition slice0 {A : Type} (n : nat) (l : list A) : list A := firstn n l.

(** [s.toLowerCase()] on the ASCII letters.  It is applied to host names
    only, which the URL parser hands out in ASCII. *)
Definition toLowerCase (s : str) : str :=
  List.map (fun c => if (65 <=? c) && (c <=? 90) then c + 32 else c)%N s.

(** [arr.includes(x)] on an array of strings. *)
Definition mem (x : str) (l : list str) : bool := existsb (eqb x) l.

(** The loop idiom [if (!acc.includes(x)) acc.push(x)]. *)
Definition push_new (acc : list str) (x : str) : list str :=
  if mem x acc then acc else acc ++ [x].

(** [[...new Set(l)]]: insertion order, first occurrence kept. *)
Definition Set_spread (l : list str) : list str := fold_left push_new l [].

End JS.

(** ** types.ts *)

Module Types.
Import JS.

Inductive Platform := zhihu | xiaohongshu | twitter | wechat | unknown.

Record CookieParam := {
  name : str;
  value : str;
  domain : option str;
  path : option str
}.

(** [crawledAt] is the reading of the clock that [nowISO()] renders as an
    ISO string; the reading itself is kept. *)
Record CrawlResult := {
  success : bool;
  platform : Platform;
  url : str;
  title : str;
  author : option str;
  content : str;
  images : list str;
  videos : list str;
  publishedAt : option str;
  crawledAt : N;
  error : option str
}.

(** [Partial<CrawlResult>], with the fields the strategies fill in. *)
Record PartialResult := {
  p_title : option str;
  p_author : option str;
  p_content : option str;
  p_images : option (list str);
  p_videos : option (list str);
  p_publishedAt : option str
}.

End Types.

(** ** utils.ts *)

Module Utils.
Import JS Types.

Section Classifier.

(** [new URL(url).hostname]: the host name of a well-formed URL, [None]
    when the constructor throws. *)
Variable URL_hostname : str -> option str.

Definition classify_host (host : str) : Platform :=
  if includes (lit "zhihu.com") host then zhihu
  else if includes (lit "xiaohongshu.com") host
          || includes (lit "xhslink.com") host then xiaohongshu
  else if includes (lit "twitter.com") host
          || includes (lit "x.com") host then twitter
  else if includes (lit "weixin.qq.com") host
          || includes (lit "mp.weixin.qq.com") host then wechat
  else unknown.

Definition detectPlatform (url : str) : option Platform :=
  match URL_hostname url with
  | None => None
  | Some hostname => Some (classify_host (toLowerCase hostname))
  end.

End Classifier.

(** [text.replace(/\s+/g, ' ')]: every maximal run of whitespace becomes one
    space.  [in_run] tells that the unit before was whitespace. *)
Fixpoint replace_ws_runs_from (in_run : bool) (s : str) : str :=
  match s with
  | [] => []
  | c :: s' =>
      if is_ws c
      then if in_run then replace_ws_runs_from true s'
           else SPACE :: replace_ws_runs_from true s'
      else c :: replace_ws_runs_from false s'
  end.

Definition replace_ws_runs (s : str) : str := replace_ws_runs_from false s.

(** What [\s*\n] consumes right after a newline: [\s*] is greedy and gives
    units back until a newline follows, so the match ends at the last newline
    of the whitespace run.  The result is the number of units consumed. *)
Fixpoint blank_line_match (s : str) : option nat :=
  match s with
  | [] => None
  | c :: s' =>
      if is_ws c
      then match blank_line_match s' with
           | Some n => Some (S n)
           | None => if (c =? NEWLINE)%N then Some 1 else None
           end
      else None
  end.

(** [text.replace(/\n\s*\n/g, '\n')]. *)
Fixpoint replace_blank_lines_from (skip : nat) (s : str) : str :=
  match s with
  | [] => []
  | c :: s' =>
      match skip with
      | S k => replace_blank_lines_from k s'
      | O =>
          if (c =? NEWLINE)%N
          then match blank_line_match s' with
               | Some n => NEWLINE :: replace_blank_lines_from n s'
               | None => c :: replace_blank_lines_from 0 s'
               end
          else c :: replace_blank_lines_from 0 s'
      end
  end.

Definition replace_blank_lines (s : str) : str := replace_blank_lines_from 0 s.

Definition cleanText (text : str) : str :=
  trim (replace_blank_lines (replace_ws_runs text)).

(** The argument [cookies?: CookieParam[] | string]. *)
Inductive Cookies :=
| CookiesUndefined
| CookiesArray (l : list CookieParam)
| CookiesString (s : str).

Definition SEMICOLON : N := 59.
Definition EQUALS : N := 61.

Definition cookie_of_pair (domain : str) (pair : str) : CookieParam :=
  let (name, valueParts) := split EQUALS (trim pair) in
  {| name := trim name;
     value := trim (join EQUALS valueParts);
     domain := Some domain;
     path := None |}.

Definition parseCookies (cookies : Cookies) (domain : str) : list CookieParam :=
  match cookies with
  | CookiesUndefined => []
  | CookiesString [] => []
  | CookiesArray l =>
      List.map (fun c => {| name := c.(name);
                            value := c.(value);
                            domain := Some (or_else c.(Types.domain) domain);
                            path := c.(path) |}) l
  | CookiesString s =>
      List.filter (fun c => truthy c.(name) && truthy c.(value))
                  (List.map (cookie_of_pair domain) (split_array SEMICOLON s))
  end.

End Utils.

(** ** The page as the browser engine shows it *)

Module Dom.
Import JS.

(** What a [catch] clause receives: an [Error] with its message, or some
    other value. *)
Inductive Thrown := ErrorObject (message : str) | NotAnError.

Inductive Outcome (A : Type) :=
| Returned (a : A)
| Threw (e : Thrown).
Arguments Returned {A} a.
Arguments Threw {A} e.

Definition bind {A B : Type} (o : Outcome A) (k : A -> Outcome B) : Outcome B :=
  match o with
  | Returned a => k a
  | Threw e => Threw e
  end.

(** [promise.catch(() => d)]. *)
Definition catch {A : Type} (o : Outcome A) (d : A) : A :=
  match o with
  | Returned a => a
  | Threw _ => d
  end.

(** An element, by what the scripts read from it: [textContent] (null for
    some nodes), [getAttribute], the reflected [src] property (empty when
    there is none) and the [textContent] of [parentElement] (the outer
    [None] when there is no parent). *)
Record Element := {
  textContent : option str;
  getAttribute : string -> option str;
  src : str;
  parentElement_textContent : option (option str)
}.

(** [document.body], by [innerHTML] and [innerText]. *)
Record Body := {
  innerHTML : str;
  innerText : str
}.

(** A loaded page, by what the sources ask of it: the outcome of waiting
    for the DOM, the title, the elements a selector matches, and the body.
    Selectors are written with single quotes around attribute values, where
    the sources use double quotes.  The waits of the strategies whose failure
    is caught and dropped, and their fixed delays, leave no trace in the
    results and are not part of the model. *)
Record Page := {
  waitForLoadState : Outcome unit;
  page_title : Outcome str;
  querySelectorAll : string -> list Element;
  body : option Body
}.

(** The regular expressions of the sources that are applied to page data,
    named after what they look for.  Those called [key: value] capture the
    string value that follows the quoted key, a colon and optional
    whitespace.

    - zhihu.ts: [re_play_url], [re_video_url], [re_playUrl] (key: value);
    - xiaohongshu.ts, images: [re_imageList] (key: the inside of the
      bracketed array), [re_urlDefault] (key: value), and [re_webpic], the
      quoted strings that hold webpic or sns-webpic and later xhscdn;
    - xiaohongshu.ts, videos: [re_masterUrl], [re_videoUrl] (key: value),
      [re_url_sns_video] (key url: a value holding sns-video);
    - xiaohongshu.ts, time: [re_time_text], digits followed by one of the
      three relative-time words, or one of the two date prefixes with the
      text up to the next whitespace;
    - generic.ts: [re_video_keys] (one of five keys: value),
      [re_src_media] and [re_data_src_media], a src or data-src or
      data-video-src attribute holding .mp4, .m3u8 or .webm, case ignored;
    - twitter.ts: [re_video_url], [re_playbackUrl] (key: value),
      [re_src_twimg] (a src attribute on video.twimg.com),
      [re_variants_mp4] (the first .mp4 url inside a variants array),
      [re_url_twimg_mp4] (key url: a .mp4 value on video.twimg.com);
    - wechat.ts: [re_data_src_mp4] (a data-src attribute holding .mp4),
      [re_url_info] and [re_video_quality] (the url inside the object that
      follows the key), [re_getvideourl] (a quoted .mp4 string after
      getvideourl). *)
Inductive RegExp :=
| re_play_url
| re_video_url
| re_playUrl
| re_imageList
| re_urlDefault
| re_webpic
| re_masterUrl
| re_videoUrl
| re_url_sns_video
| re_time_text
| re_video_keys
| re_src_media
| re_data_src_media
| re_playbackUrl
| re_src_twimg
| re_variants_mp4
| re_url_twimg_mp4
| re_data_src_mp4
| re_url_info
| re_video_quality
| re_getvideourl.

(** The regular-expression engine: the successive matches of a pattern in a
    subject, each as the whole match and its first capture group
    ([match[0]] and [match[1]]). *)
Definition RegExpEngine := RegExp -> str -> list (str * str).

Section Operations.

Variable page : Page.

(** [page.$eval(selector, f)]: [f] on the first matching element; throws
    when nothing matches. *)
Definition eval1 {A : Type} (selector : string) (f : Element -> A) : Outcome A :=
  match querySelectorAll page selector with
  | [] => Threw (ErrorObject (lit "failed to find element matching selector"))
  | el :: _ => Returned (f el)
  end.

(** [page.$$eval(selector, f)]: [f] on the array of matching elements. *)
Definition evalAll {A : Type} (selector : string) (f : list Element -> A) : Outcome A :=
  Returned (f (querySelectorAll page selector)).

(** [document.body.innerHTML] and [document.body.innerText] inside a
    script: a TypeError when there is no body. *)
Definition body_innerHTML : Outcome str :=
  match body page with
  | Some b => Returned (innerHTML b)
  | None => Threw (ErrorObject (lit "Cannot read properties of null"))
  end.

Definition body_innerText : Outcome str :=
  match body page with
  | Some b => Returned (innerText b)
  | None => Threw (ErrorObject (lit "Cannot read properties of null"))
  end.

End Operations.

(** [el => el.textContent || ''], the callback of most [$eval] calls. *)
Definition text_of (el : Element) : str := or_else (textContent el) [].

Definition BACKSLASH : N := 92.

(** The six units of the JSON escape of a slash, a backslash followed by
    u002F, and the two units of the other one, a backslash and a slash. *)
Definition SLASH_ESCAPED_UNICODE : str := BACKSLASH :: lit "u002F".
Definition SLASH_ESCAPED : str := BACKSLASH :: lit "/".

(** The two chained [replace] calls that turn both escapes back into a
    slash, everywhere in the string. *)
Definition unescape_slashes (s : str) : str :=
  replaceAll SLASH_ESCAPED (lit "/")
    (replaceAll SLASH_ESCAPED_UNICODE (lit "/") s).

(** [if (ok(x) && !acc.includes(x)) acc.push(x)] *)
Definition push_new_if (ok : str -> bool) (acc : list str) (x : str) : list str :=
  if ok x then push_new acc x else acc.

(** [if (x) acc.push(x)] *)
Definition push_truthy (acc : list str) (x : str) : list str :=
  if truthy x then acc ++ [x] else acc.

End Dom.

Notation "x <- a ;; b" := (Dom.bind a (fun x => b))
  (at level 61, a at next level, right associativity).

(** ** crawlers/base.ts *)

Module Base.
Import JS Types Utils Dom.

(** The abstract members of [BaseCrawler], which each strategy supplies. *)
Record BaseCrawler := {
  crawler_platform : Platform;
  getDomain : str;
  extract : Page -> str -> Outcome PartialResult
}.

Record CrawlOptions := {
  timeout : option N;
  cookies : Cookies
}.

(** The cookies handed to [context.addCookies] by [setCookies]. *)
Definition playwrightCookies (self : BaseCrawler) (cs : list CookieParam) : list CookieParam :=
  List.map (fun c => {| name := c.(name);
                        value := c.(value);
                        domain := Some (or_else c.(domain) (getDomain self));
                        path := Some (or_else c.(path) (lit "/")) |}) cs.

(** What the crawling engine does to one [crawl] call, as the callbacks
    it makes, in the order it makes them.  [now] is the reading of the clock
    at the moment the callback reaches its resolution.

    - [RequestHandler]: an invocation of [requestHandler] on a loaded page
      runs to its end (between the last [await] and [resolve] the handler
      does not yield);
    - [FailedRequestHandler]: the request failed for good (navigation error,
      timeout, retries exhausted);
    - [RunSettled]: the promise of [crawler.run([url])] settles and its
      [finally] callback runs. *)
Inductive Event :=
| RequestHandler (now : N) (page : Page) (request_url : str)
| FailedRequestHandler (now : N) (request_url : str) (error_message : str)
| RunSettled (now : N).

(** The closure of one [crawl] call: the flag [resolved], the state of the
    promise that [crawl] returns, and the arguments of the calls of
    [resolve] so far, in order. *)
Record CrawlState := {
  resolved : bool;
  promise : option CrawlResult;
  resolve_calls : list CrawlResult
}.

Definition initial : CrawlState :=
  {| resolved := false; promise := None; resolve_calls := [] |}.

(** [resolved = true] *)
Definition set_resolved (st : CrawlState) : CrawlState :=
  {| resolved := true;
     promise := promise st;
     resolve_calls := resolve_calls st |}.

(** [resolve(r)], the resolving function of the promise: it fulfils a
    pending promise and does nothing to a fulfilled one. *)
Definition resolve (r : CrawlResult) (st : CrawlState) : CrawlState :=
  {| resolved := resolved st;
     promise := match promise st with
                | None => Some r
                | Some v => Some v
                end;
     resolve_calls := resolve_calls st ++ [r] |}.

(** What [crawl] configures the crawling engine with: the two timeouts
    ([timeout / 1000] seconds each, kept here in milliseconds), the number of
    retries, and the cookies the pre-navigation hook injects. *)
Record CrawlerConfig := {
  requestHandlerTimeoutMillis : N;
  navigationTimeoutMillis : N;
  maxRequestRetries : nat;
  hookCookies : list CookieParam
}.

(** The crawling engine: the callbacks it makes when run on the one URL
    under a configuration. *)
Definition PlaywrightCrawler := CrawlerConfig -> str -> list Event.

Section Crawl.

Variable self : BaseCrawler.
Variable url : str.

Definition failure (request_url : str) (now : N) (message : str) : CrawlResult :=
  {| success := false;
     platform := crawler_platform self;
     Types.url := request_url;
     title := [];
     author := None;
     content := [];
     images := [];
     videos := [];
     publishedAt := None;
     crawledAt := now;
     error := Some message |}.

(** The [try] block of [requestHandler] up to the call of [extract]: the
    wait for the DOM, which may throw, and then the strategy.  The fixed
    delay between the two takes time and gives no value. *)
Definition handle (page : Page) (request_url : str) : Outcome PartialResult :=
  _ <- waitForLoadState page ;;
  extract self page request_url.

Definition requestHandler (now : N) (page : Page) (request_url : str)
           (st : CrawlState) : CrawlState :=
  match handle page request_url with
  | Returned extracted =>
      resolve {| success := true;
                 platform := crawler_platform self;
                 Types.url := request_url;
                 title := or_else (p_title extracted) [];
                 author := p_author extracted;
                 content := or_else (p_content extracted) [];
                 images := match p_images extracted with
                           | Some l => l
                           | None => []
                           end;
                 videos := match p_videos extracted with
                           | Some l => l
                           | None => []
                           end;
                 publishedAt := p_publishedAt extracted;
                 crawledAt := now;
                 error := None |}
              (set_resolved st)
  | Threw e =>
      resolve (failure request_url now
                       match e with
                       | ErrorObject message => message
                       | NotAnError => lit "Unknown error"
                       end)
              (set_resolved st)
  end.

Definition failedRequestHandler (now : N) (request_url : str)
           (error_message : str) (st : CrawlState) : CrawlState :=
  if resolved st then st
  else resolve (failure request_url now error_message) (set_resolved st).

(** The callback of [crawler.run([url]).finally]. *)
Definition run_finally (now : N) (st : CrawlState) : CrawlState :=
  if resolved st then st
  else resolve (failure url now (lit "Crawler finished without result"))
               (set_resolved st).

Definition step (st : CrawlState) (ev : Event) : CrawlState :=
  match ev with
  | RequestHandler now page request_url => requestHandler now page request_url st
  | FailedRequestHandler now request_url message =>
      failedRequestHandler now request_url message st
  | RunSettled now => run_finally now st
  end.

Definition run (trace : list Event) : CrawlState := fold_left step trace initial.

Definition config (options : CrawlOptions) : CrawlerConfig :=
  let timeout := match timeout options with
                 | Some t => t
                 | None => 30000%N
                 end in
  let parsedCookies := parseCookies (cookies options) (getDomain self) in
  {| requestHandlerTimeoutMillis := timeout;
     navigationTimeoutMillis := timeout;
     maxRequestRetries := 1;
     hookCookies := playwrightCookies self parsedCookies |}.

(** The value of the promise that [crawl] returns once the engine has made
    its callbacks: [None] while it is pending. *)
Definition crawl (crawler : PlaywrightCrawler) (options : CrawlOptions)
  : option CrawlResult :=
  promise (run (crawler (config options) url)).

End Crawl.

Definition event_time (ev : Event) : N :=
  match ev with
  | RequestHandler now _ _ => now
  | FailedRequestHandler now _ _ => now
  | RunSettled now => now
  end.

Definition is_RunSettled (ev : Event) : bool :=
  match ev with
  | RunSettled _ => true
  | _ => false
  end.

End Base.

(** ** crawlers/zhihu.ts *)

Module Zhihu.
Import JS Types Utils Dom Base.

Section Strategy.

Variable rx : RegExpEngine.

Definition video_patterns : list RegExp := [re_play_url; re_video_url; re_playUrl].

(** The script of [extractVideos]. *)
Definition extractVideos_script (page : Page) : Outcome (list str) :=
  let videos := [] in
  let videos :=
    fold_left (fun vs video =>
                 push_truthy vs (or_else (Some (src video))
                                   (or_else (getAttribute video "data-src") [])))
              (querySelectorAll page "video") videos in
  let videos :=
    fold_left (fun vs source =>
                 push_truthy vs (or_else (getAttribute source "src") []))
              (querySelectorAll page "video source") videos in
  let videos :=
    fold_left (fun vs el =>
                 push_truthy vs (or_else (getAttribute el "data-video") []))
              (querySelectorAll page "[data-video]") videos in
  pageContent <- body_innerHTML page ;;
  let videos :=
    fold_left (fun vs pattern =>
                 fold_left (fun vs m => push_truthy vs (unescape_slashes (snd m)))
                           (rx pattern pageContent) vs)
              video_patterns videos in
  Returned (slice0 10 (Set_spread videos)).

Definition extractVideos (page : Page) : list str :=
  catch (extractVideos_script page) [].

(** [imgs.map(img => img.getAttribute('src') ||
    img.getAttribute('data-original') || '').filter(Boolean)] *)
Definition image_sources (imgs : list Element) : list str :=
  List.filter truthy
    (List.map (fun img => or_else (getAttribute img "src")
                            (or_else (getAttribute img "data-original") []))
              imgs).

(** [title || await page.title()] *)
Definition title_or_page_title (page : Page) (title : str) : Outcome str :=
  if truthy title then Returned title else page_title page.

Definition extractArticle (page : Page) : Outcome PartialResult :=
  let title := catch (eval1 page "h1.Post-Title, .Post-Title" text_of) [] in
  let author := catch (eval1 page ".AuthorInfo-name, .UserLink-link" text_of) [] in
  let content := catch (eval1 page ".Post-RichTextContainer, .RichText" text_of) [] in
  let images :=
    catch (evalAll page ".Post-RichTextContainer img, .RichText img" image_sources) [] in
  let videos := extractVideos page in
  let publishedAt := catch (eval1 page ".ContentItem-time, .Post-Time" text_of) [] in
  pageTitle <- title_or_page_title page title ;;
  Returned {| p_title := Some (cleanText pageTitle);
              p_author := Some (cleanText author);
              p_content := Some (cleanText content);
              p_images := Some images;
              p_videos := Some videos;
              p_publishedAt := Some (cleanText publishedAt) |}.

Definition extractAnswer (page : Page) : Outcome PartialResult :=
  let title :=
    catch (eval1 page "h1.QuestionHeader-title, .QuestionHeader-title" text_of) [] in
  let author :=
    catch (eval1 page ".AuthorInfo-name, .AnswerItem .UserLink-link" text_of) [] in
  let content := catch (eval1 page ".RichContent-inner .RichText" text_of) [] in
  let content :=
    if truthy content then content
    else catch (eval1 page ".AnswerItem .RichContent-inner" text_of) [] in
  let content :=
    if truthy content then content
    else catch (eval1 page "[class*='RichContent'] [class*='RichText']" text_of) [] in
  let images := catch (evalAll page ".RichContent-inner img" image_sources) [] in
  let videos := extractVideos page in
  let publishedAt :=
    catch (eval1 page ".ContentItem-time span, .AnswerItem-time" text_of) [] in
  pageTitle <- title_or_page_title page title ;;
  Returned {| p_title := Some (cleanText pageTitle);
              p_author := Some (cleanText author);
              p_content := Some (cleanText content);
              p_images := Some images;
              p_videos := Some videos;
              p_publishedAt := Some (cleanText publishedAt) |}.

Definition extractGeneric (page : Page) : Outcome PartialResult :=
  title <- page_title page ;;
  let content := catch (eval1 page "body" text_of) [] in
  let videos := extractVideos page in
  Returned {| p_title := Some title;
              p_author := None;
              p_content := Some (slice0 5000 (cleanText content));
              p_images := Some [];
              p_videos := Some videos;
              p_publishedAt := None |}.

Definition extract (page : Page) (url : str) : Outcome PartialResult :=
  let isArticle := includes (lit "/p/") url in
  let isAnswer := includes (lit "/answer/") url in
  if isArticle then extractArticle page
  else if isAnswer then extractAnswer page
  else extractGeneric page.

Definition ZhihuCrawler : BaseCrawler :=
  {| crawler_platform := zhihu;
     getDomain := lit ".zhihu.com";
     Base.extract := extract |}.

End Strategy.

End Zhihu.

(** ** crawlers/twitter.ts *)

Module Twitter.
Import JS Types Utils Dom Base.

Section Strategy.

Variable rx : RegExpEngine.

Definition isValidVideo (url : str) : bool :=
  if negb (truthy url) || startsWith (lit "blob:") url then false
  else includes (lit "video.twimg.com") url || includes (lit ".mp4") url.

Definition video_patterns : list RegExp :=
  [re_video_url; re_playbackUrl; re_src_twimg; re_variants_mp4; re_url_twimg_mp4].

Definition videos_script (page : Page) : Outcome (list str) :=
  let vids := [] in
  let vids :=
    fold_left (fun vs video => push_new_if isValidVideo vs (or_else (Some (src video)) []))
              (querySelectorAll page "video") vids in
  let vids :=
    fold_left (fun vs source =>
                 push_new_if isValidVideo vs (or_else (getAttribute source "src") []))
              (querySelectorAll page "video source") vids in
  pageContent <- body_innerHTML page ;;
  let vids :=
    fold_left (fun vs pattern =>
                 fold_left (fun vs m =>
                              push_new_if isValidVideo vs (unescape_slashes (snd m)))
                           (rx pattern pageContent) vs)
              video_patterns vids in
  Returned (slice0 10 vids).

(** [imgs.map(img => img.getAttribute('src') || '').filter(Boolean)] *)
Definition image_sources (imgs : list Element) : list str :=
  List.filter truthy
    (List.map (fun img => or_else (getAttribute img "src") []) imgs).

Definition extract (page : Page) (url : str) : Outcome PartialResult :=
  let content := catch (eval1 page "article [data-testid='tweetText']" text_of) [] in
  let author := catch (eval1 page "article [data-testid='User-Name']" text_of) [] in
  let images :=
    catch (evalAll page "article [data-testid='tweetPhoto'] img" image_sources) [] in
  let videos := catch (videos_script page) [] in
  let publishedAt :=
    catch (eval1 page "article time"
                 (fun el => or_else (getAttribute el "datetime")
                              (or_else (textContent el) []))) [] in
  pageTitle <- page_title page ;;
  Returned {| p_title :=
                Some (cleanText (replaceFirst (lit " on X:") (lit ": ")
                                   (replaceFirst (lit " / X") [] pageTitle)));
              p_author := Some (cleanText author);
              p_content := Some (cleanText content);
              p_images := Some images;
              p_videos := Some videos;
              p_publishedAt := Some publishedAt |}.

Definition TwitterCrawler : BaseCrawler :=
  {| crawler_platform := twitter;
     getDomain := lit ".x.com";
     Base.extract := extract |}.

End Strategy.

End Twitter.

(** ** crawlers/xiaohongshu.ts *)

Module Xiaohongshu.
Import JS Types Utils Dom Base.

(** The literals of the source that are not ASCII, as code units. *)
Definition LOGIN : str := [30331; 24405]%N.
Definition TITLE_SUFFIX : str := [32; 45; 32; 23567; 32418; 20070]%N.
Definition ME : str := [25105]%N.
Definition FULL_STOP : str := [12290]%N.
Definition ICP_RECORD : str := [27818; 73; 67; 80; 22791]%N.
Definition BUSINESS_LICENCE : str := [33829; 19994; 25191; 29031]%N.
Definition timePatterns : list str :=
  [ [32534; 36753; 20110]; [21457; 24067; 20110]; [22825; 21069];
    [23567; 26102; 21069]; [20998; 38047; 21069] ]%N.

Definition QUESTION_MARK : N := 63.
Definition DOUBLE_QUOTE : N := 34.

(** [s.indexOf(p)], [None] for -1. *)
Fixpoint indexOf (p s : str) : option nat :=
  if startsWith p s then Some 0
  else match s with
       | [] => None
       | _ :: s' => option_map S (indexOf p s')
       end.

(** [s.substring(start, end)] for [start <= end]. *)
Definition substring (start end_ : nat) (s : str) : str :=
  firstn (end_ - start) (skipn start s).

Definition empty_result : PartialResult :=
  {| p_title := Some [];
     p_author := None;
     p_content := Some [];
     p_images := Some [];
     p_videos := Some [];
     p_publishedAt := None |}.

Section Strategy.

Variable rx : RegExpEngine.

Fixpoint author_of (authorLinks : list Element) : str :=
  match authorLinks with
  | [] => []
  | link :: rest =>
      match option_map trim (textContent link) with
      | Some text =>
          if truthy text && (1 <? List.length text) && (List.length text <? 50)
             && negb (eqb text ME) && negb (includes (lit "http") text)
          then text
          else author_of rest
      | None => author_of rest
      end
  end.

Fixpoint content_of_divs (allDivs : list Element) : str :=
  match allDivs with
  | [] => []
  | div :: rest =>
      let text := or_else (textContent div) [] in
      if (50 <? List.length text) && (List.length text <? 5000)
         && (includes (lit "#") text || includes (lit "[") text
             || includes FULL_STOP text)
         && (negb (includes ICP_RECORD text)
             && negb (includes BUSINESS_LICENCE text))
      then text
      else content_of_divs rest
  end.

Definition content_script (page : Page) : str :=
  match querySelectorAll page "a[href*='/search_result?keyword=']" with
  | first :: _ =>
      match parentElement_textContent first with
      | Some parent_text => or_else parent_text []
      | None => content_of_divs (querySelectorAll page "div")
      end
  | [] => content_of_divs (querySelectorAll page "div")
  end.

Definition is_note_image (src : str) : bool :=
  includes (lit "xhscdn.com") src
  && (includes (lit "webpic") src || includes (lit "sns-webpic") src)
  && negb (includes (lit "avatar") src)
  && negb (includes (lit "icon") src)
  && negb (includes (lit "logo") src)
  && negb (includes (lit ".js") src)
  && negb (includes (lit "fe-static") src).

Definition image_patterns : list RegExp := [re_imageList; re_urlDefault].

Definition images_script (page : Page) : Outcome (list str) :=
  let imgs := [] in
  let imgs :=
    fold_left (fun acc img =>
                 let src := or_else (Some (src img))
                              (or_else (getAttribute img "data-src") []) in
                 if is_note_image src
                 then push_new acc (fst (split QUESTION_MARK src))
                 else acc)
              (querySelectorAll page "img") imgs in
  pageContent <- body_innerHTML page ;;
  let imgs :=
    fold_left (fun acc pattern =>
      fold_left (fun acc m =>
        let content := snd m in
        fold_left (fun acc urlMatch =>
          let url := fst (split QUESTION_MARK
                            (replaceAll SLASH_ESCAPED_UNICODE (lit "/")
                               (replaceAll [DOUBLE_QUOTE] [] (fst urlMatch)))) in
          if truthy url && negb (mem url acc)
             && negb (includes (lit "avatar") url)
             && negb (includes (lit ".js") url)
          then acc ++ [url]
          else acc)
          (rx re_webpic content) acc)
        (rx pattern pageContent) acc)
      image_patterns imgs in
  Returned (slice0 20 imgs).

Definition isValidVideo (url : str) : bool :=
  if negb (truthy url) || startsWith (lit "blob:") url then false
  else includes (lit "sns-video") url || includes (lit ".mp4") url
       || includes (lit "stream") url.

Definition video_patterns : list RegExp := [re_masterUrl; re_videoUrl; re_url_sns_video].

Definition videos_script (page : Page) : Outcome (list str) :=
  let vids := [] in
  let vids :=
    fold_left (fun vs video =>
                 push_new_if isValidVideo vs
                   (or_else (Some (src video))
                      (or_else (getAttribute video "data-src") [])))
              (querySelectorAll page "video") vids in
  let vids :=
    fold_left (fun vs source =>
                 push_new_if isValidVideo vs (or_else (getAttribute source "src") []))
              (querySelectorAll page "video source") vids in
  pageContent <- body_innerHTML page ;;
  let vids :=
    fold_left (fun vs pattern =>
                 fold_left (fun vs m =>
                              let url := unescape_slashes (snd m) in
                              let url := if startsWith (lit "//") url
                                         then lit "https:" ++ url else url in
                              push_new_if isValidVideo vs url)
                           (rx pattern pageContent) vs)
              video_patterns vids in
  Returned (slice0 10 vids).

Fixpoint time_of (allText : str) (patterns : list str) : str :=
  match patterns with
  | [] => []
  | pattern :: rest =>
      match indexOf pattern allText with
      | Some index =>
          let start := Nat.max 0 (index - 10) in
          let end_ := Nat.min (List.length allText) (index + 20) in
          let timeText := trim (substring start end_ allText) in
          match rx re_time_text timeText with
          | m :: _ => trim (fst m)
          | [] => time_of allText rest
          end
      | None => time_of allText rest
      end
  end.

Definition publishedAt_script (page : Page) : Outcome str :=
  allText <- body_innerText page ;;
  Returned (time_of allText timePatterns).

(** The body of the [try] block. *)
Definition extract_body (page : Page) : Outcome PartialResult :=
  pageTitle <- page_title page ;;
  if includes LOGIN pageTitle && negb (includes TITLE_SUFFIX pageTitle)
  then Returned {| p_title := Some [];
                   p_author := None;
                   p_content := Some [];
                   p_images := Some [];
                   p_videos := Some [];
                   p_publishedAt := None |}
  else
    let title := if includes TITLE_SUFFIX pageTitle
                 then replaceFirst TITLE_SUFFIX [] pageTitle
                 else [] in
    let author :=
      author_of (querySelectorAll page "a[href*='/user/profile/']") in
    let content := content_script page in
    let images := catch (images_script page) [] in
    let videos := catch (videos_script page) [] in
    let publishedAt := catch (publishedAt_script page) [] in
    Returned {| p_title := Some (cleanText title);
                p_author := Some (cleanText author);
                p_content := Some (cleanText content);
                p_images := Some images;
                p_videos := Some videos;
                p_publishedAt := Some (cleanText publishedAt) |}.

Definition extract (page : Page) (url : str) : Outcome PartialResult :=
  Returned (catch (extract_body page) empty_result).

Definition XiaohongshuCrawler : BaseCrawler :=
  {| crawler_platform := xiaohongshu;
     getDomain := lit ".xiaohongshu.com";
     Base.extract := extract |}.

End Strategy.

End Xiaohongshu.

(** ** crawlers/wechat.ts *)

Module Wechat.
Import JS Types Utils Dom Base.

Section Strategy.

Variable rx : RegExpEngine.

Definition video_patterns : list RegExp :=
  [re_data_src_mp4; re_url_info; re_video_quality; re_getvideourl].

Definition is_video_frame (src : str) : bool :=
  truthy src && (includes (lit "video") src || includes (lit "v.qq.com") src).

Definition videos_script (page : Page) : Outcome (list str) :=
  let vids := [] in
  let vids :=
    fold_left (fun vs video =>
                 push_new_if truthy vs
                   (or_else (Some (src video))
                      (or_else (getAttribute video "data-src") [])))
              (querySelectorAll page "video") vids in
  let vids :=
    fold_left (fun vs source =>
                 push_new_if truthy vs (or_else (getAttribute source "src") []))
              (querySelectorAll page "video source") vids in
  let vids :=
    fold_left (fun vs iframe =>
                 push_new_if is_video_frame vs
                   (or_else (Some (src iframe))
                      (or_else (getAttribute iframe "data-src") [])))
              (querySelectorAll page "iframe") vids in
  let vids :=
    fold_left (fun vs el =>
                 push_new_if truthy vs (or_else (getAttribute el "data-src") []))
              (querySelectorAll page "[data-vidtype]") vids in
  pageContent <- body_innerHTML page ;;
  let vids :=
    fold_left (fun vs pattern =>
                 fold_left (fun vs m =>
                              push_new_if truthy vs (unescape_slashes (snd m)))
                           (rx pattern pageContent) vs)
              video_patterns vids in
  Returned (slice0 10 vids).

(** [imgs.map(img => img.getAttribute('data-src') ||
    img.getAttribute('src') || '').filter(Boolean)] *)
Definition image_sources (imgs : list Element) : list str :=
  List.filter truthy
    (List.map (fun img => or_else (getAttribute img "data-src")
                            (or_else (getAttribute img "src") []))
              imgs).

Definition extract (page : Page) (url : str) : Outcome PartialResult :=
  let title := catch (eval1 page "#activity-name, .rich_media_title" text_of) [] in
  let author := catch (eval1 page "#js_name, .profile_nickname" text_of) [] in
  let content := catch (eval1 page "#js_content" text_of) [] in
  let images := catch (evalAll page "#js_content img" image_sources) [] in
  let videos := catch (videos_script page) [] in
  let publishedAt := catch (eval1 page "#publish_time, .publish_time" text_of) [] in
  Returned {| p_title := Some (cleanText title);
              p_author := Some (cleanText author);
              p_content := Some (cleanText content);
              p_images := Some (Set_spread images);
              p_videos := Some videos;
              p_publishedAt := Some (cleanText publishedAt) |}.

Definition WechatCrawler : BaseCrawler :=
  {| crawler_platform := wechat;
     getDomain := lit ".qq.com";
     Base.extract := extract |}.

End Strategy.

End Wechat.

(** ** crawlers/generic.ts *)

Module Generic.
Import JS Types Utils Dom Base.

Definition contentSelectors : list string :=
  ["article"; "main"; ".content"; ".post-content"; ".article-content";
   "#content"; ".entry-content"]%string.

Section Strategy.

Variable rx : RegExpEngine.

(** The loop over [contentSelectors]: [content] is assigned at every
    selector that matches, and the loop is left at the first text of more
    than 100 units. *)
Fixpoint select_content (page : Page) (selectors : list string) (content : str) : str :=
  match selectors with
  | [] => content
  | selector :: rest =>
      match eval1 page selector text_of with
      | Returned content' =>
          if 100 <? List.length content' then content'
          else select_content page rest content'
      | Threw _ => select_content page rest content
      end
  end.

(** [imgs.map(img => img.getAttribute('src') || '')
    .filter(src => src && !src.includes('data:') && src.length < 500)
    .slice(0, 20)] *)
Definition image_sources (imgs : list Element) : list str :=
  slice0 20
    (List.filter (fun src => truthy src && negb (includes (lit "data:") src)
                             && (List.length src <? 500))
                 (List.map (fun img => or_else (getAttribute img "src") []) imgs)).

Definition video_patterns : list RegExp :=
  [re_video_keys; re_src_media; re_data_src_media].

Definition videos_script (page : Page) : Outcome (list str) :=
  let vids := [] in
  let vids :=
    fold_left (fun vs video =>
                 push_new_if truthy vs
                   (or_else (Some (src video))
                      (or_else (getAttribute video "data-src") [])))
              (querySelectorAll page "video") vids in
  let vids :=
    fold_left (fun vs source =>
                 push_new_if truthy vs (or_else (getAttribute source "src") []))
              (querySelectorAll page "video source") vids in
  pageContent <- body_innerHTML page ;;
  let vids :=
    fold_left (fun vs pattern =>
                 fold_left (fun vs m =>
                              push_new_if truthy vs (unescape_slashes (snd m)))
                           (rx pattern pageContent) vs)
              video_patterns vids in
  Returned (slice0 10 vids).

Definition extract (page : Page) (url : str) : Outcome PartialResult :=
  title <- page_title page ;;
  let content := select_content page contentSelectors [] in
  let content :=
    if negb (truthy content) then catch (eval1 page "body" text_of) []
    else content in
  let images := catch (evalAll page "img" image_sources) [] in
  let videos := catch (videos_script page) [] in
  let author :=
    catch (eval1 page "[rel='author'], .author, .byline, [class*='author']" text_of) [] in
  Returned {| p_title := Some title;
              p_author := Some (cleanText author);
              p_content := Some (slice0 10000 (cleanText content));
              p_images := Some images;
              p_videos := Some videos;
              p_publishedAt := None |}.

Definition GenericCrawler : BaseCrawler :=
  {| crawler_platform := unknown;
     getDomain := [];
     Base.extract := extract |}.

End Strategy.

End Generic.

(** ** crawlers/index.ts *)

Module Registry.
Import Types Base.

Definition getCrawler (rx : Dom.RegExpEngine) (platform : Platform) : BaseCrawler :=
  match platform with
  | zhihu => Zhihu.ZhihuCrawler rx
  | xiaohongshu => Xiaohongshu.XiaohongshuCrawler rx
  | twitter => Twitter.TwitterCrawler rx
  | wechat => Wechat.WechatCrawler rx
  | unknown => Generic.GenericCrawler rx
  end.

End Registry.

(** ** server.ts *)

Module Server.
Import JS Types Utils Dom.

(** The body of a request to [/crawl]. *)
Record CrawlRequest := {
  url : option str;
  timeout : option N;
  cookies : Cookies
}.

(** The body of a request to [/crawl/batch]. *)
Record BatchRequest := {
  urls : option (list str);
  batch_timeout : option N;
  batch_cookies : Cookies
}.

Record ApiResponse (T : Type) := {
  code : N;
  message : str;
  data : option T
}.
Arguments code {T} _.
Arguments message {T} _.
Arguments data {T} _.

(** What a route sends: the HTTP status and the body.  A route that returns
    its body without touching [reply.status] answers with status 200. *)
Record Reply (T : Type) := {
  status : N;
  payload : ApiResponse T
}.
Arguments status {T} _.
Arguments payload {T} _.

Definition rejected {T : Type} (text : str) : Reply T :=
  {| status := 400;
     payload := {| code := 400; message := text; data := None |} |}.

(** [Promise.all] over promises that do not reject: pending as long as one
    of them is. *)
Fixpoint all {A : Type} (promises : list (option A)) : option (list A) :=
  match promises with
  | [] => Some []
  | None :: _ => None
  | Some v :: rest =>
      match all rest with
      | Some vs => Some (v :: vs)
      | None => None
      end
  end.

(** [array.map(f)], with the index of each element. *)
Fixpoint map_indexed {A B : Type} (f : nat -> A -> B) (i : nat) (l : list A) : list B :=
  match l with
  | [] => []
  | x :: rest => f i x :: map_indexed f (S i) rest
  end.

Section Routes.

(** The URL parser, and the message of the TypeError that [new URL(url)]
    throws on a string it rejects. *)
Variable URL_hostname : str -> option str.
Variable URL_error : str -> str.

Variable rx : RegExpEngine.

(** The default of the destructuring [timeout = 30000]. *)
Definition timeout_or_default (timeout : option N) : N :=
  match timeout with
  | Some t => t
  | None => 30000%N
  end.

(** The handler of [POST /crawl], given the run of the engine that its one
    call of [crawl] starts.  [None]: the handler is still waiting. *)
Definition crawl_route (crawler : Base.PlaywrightCrawler) (request : CrawlRequest)
  : option (Reply CrawlResult) :=
  let timeout := timeout_or_default (timeout request) in
  match url request with
  | None | Some [] => Some (rejected (lit "URL is required"))
  | Some url =>
      match URL_hostname url with
      | None => Some (rejected (lit "Invalid URL format"))
      | Some _ =>
          match detectPlatform URL_hostname url with
          | None =>
              Some {| status := 500;
                      payload := {| code := 500; message := URL_error url;
                                    data := None |} |}
          | Some platform =>
              let crawler_ := Registry.getCrawler rx platform in
              match Base.crawl crawler_ url crawler
                               {| Base.timeout := Some timeout;
                                  Base.cookies := cookies request |} with
              | None => None
              | Some result =>
                  if success result
                  then Some {| status := 200;
                               payload := {| code := 200; message := lit "Success";
                                             data := Some result |} |}
                  else Some {| status := 200;
                               payload := {| code := 500;
                                             message := or_else (error result)
                                                          (lit "Crawl failed");
                                             data := Some result |} |}
              end
          end
      end
  end.

(** The engine runs that the calls of [crawl] of a batch start, by the
    index of the URL, and the clock read in the [catch] of each. *)
Variable crawlers : nat -> Base.PlaywrightCrawler.
Variable clock : nat -> N.

(** The callback of [urls.map] in the batch route. *)
Definition batch_item (timeout : N) (cookies : Cookies) (i : nat) (url : str)
  : option CrawlResult :=
  match detectPlatform URL_hostname url with
  | Some platform =>
      Base.crawl (Registry.getCrawler rx platform) url (crawlers i)
                 {| Base.timeout := Some timeout; Base.cookies := cookies |}
  | None =>
      Some {| success := false;
              platform := unknown;
              Types.url := url;
              title := [];
              author := None;
              content := [];
              images := [];
              videos := [];
              publishedAt := None;
              crawledAt := clock i;
              error := Some (URL_error url) |}
  end.

(** The handler of [POST /crawl/batch]. *)
Definition batch_route (request : BatchRequest) : option (Reply (list CrawlResult)) :=
  let timeout := timeout_or_default (batch_timeout request) in
  match urls request with
  | None | Some [] => Some (rejected (lit "URLs array is required"))
  | Some urls =>
      if 10 <? List.length urls
      then Some (rejected (lit "Maximum 10 URLs per batch"))
      else
        match all (map_indexed (batch_item timeout (batch_cookies request)) 0 urls) with
        | None => None
        | Some results =>
            Some {| status := 200;
                    payload := {| code := 200; message := lit "Success";
                                  data := Some results |} |}
        end
  end.

End Routes.

End Server.

(** * Properties *)

Import JS Types Utils Dom Base.

(** ** Vocabulary of the statements *)

(** Every whitespace unit is a space and is followed by a unit that is not
    whitespace, if by any. *)
Fixpoint single_spaced (s : str) : bool :=
  match s with
  | [] => true
  | c :: s' =>
      (if is_ws c
       then (c =? SPACE)%N
            && match s' with
               | [] => true
               | d :: _ => negb (is_ws d)
               end
       else true)
      && single_spaced s'
  end.

Definition starts_ws (s : str) : bool :=
  match s with
  | [] => false
  | c :: _ => is_ws c
  end.

Fixpoint ends_ws (s : str) : bool :=
  match s with
  | [] => false
  | [c] => is_ws c
  | _ :: s' => ends_ws s'
  end.

(** A normalized text: single-spaced, with no whitespace at either end. *)
Definition normalized (s : str) : bool :=
  single_spaced s && negb (starts_ws s) && negb (ends_ws s).

(** The units of a text that are not whitespace, in order. *)
Definition ink (s : str) : str := List.filter (fun c => negb (is_ws c)) s.

Definition starts_ink (s : str) : bool :=
  match s with
  | [] => false
  | c :: _ => negb (is_ws c)
  end.

(** The words of a text: its maximal runs of units that are not
    whitespace. *)
Fixpoint words (s : str) : list str :=
  match s with
  | [] => []
  | c :: s' =>
      if is_ws c then words s'
      else if starts_ink s'
           then match words s' with
                | w :: ws => (c :: w) :: ws
                | [] => [[c]]
                end
           else [c] :: words s'
  end.

(** A string cut at the first occurrence of a separator: what is before it
    and what is after it; the second part is empty when there is none. *)
Fixpoint cut_at_first (sep : N) (s : str) : str * str :=
  match s with
  | [] => ([], [])
  | c :: s' =>
      if (c =? sep)%N then ([], s')
      else let (a, b) := cut_at_first sep s' in (c :: a, b)
  end.

(** The string form of the cookie normalizer as the specification words it:
    split on the semicolon, trim each pair, cut it at its first equals sign,
    trim both parts, attach the fallback domain, and drop the entries with an
    empty name or an empty value. *)
Definition spec_cookie_of_pair (fallback : str) (pair : str) : CookieParam :=
  let (n, v) := cut_at_first EQUALS (trim pair) in
  {| name := trim n; value := trim v; domain := Some fallback; path := None |}.

Definition spec_parse_cookie_string (s : str) (fallback : str) : list CookieParam :=
  List.filter (fun c => truthy c.(name) && truthy c.(value))
              (List.map (spec_cookie_of_pair fallback) (split_array SEMICOLON s)).

(** The platform signatures in their order, and the classification of a
    host as the specification words it: the platform of the first signature
    that occurs in the host, [unknown] when none does. *)
Definition signatures : list (str * Platform) :=
  [ (lit "zhihu.com", zhihu);
    (lit "xiaohongshu.com", xiaohongshu);
    (lit "xhslink.com", xiaohongshu);
    (lit "twitter.com", twitter);
    (lit "x.com", twitter);
    (lit "weixin.qq.com", wechat) ].

Fixpoint first_match (sigs : list (str * Platform)) (host : str) : Platform :=
  match sigs with
  | [] => unknown
  | (sig, p) :: rest => if includes sig host then p else first_match rest host
  end.

(** A stand-in for the URL parser on the URLs of the examples: the host name
    of an https URL is what lies between the scheme and the next slash. *)
Definition https_hostname (url : str) : option str :=
  if startsWith (lit "https://") url
  then Some (fst (split 47 (skipn 8 url)))
  else None.

(** The media lists of an extracted result, as [crawl] reads them. *)
Definition images_of (r : PartialResult) : list str :=
  match p_images r with Some l => l | None => [] end.

Definition videos_of (r : PartialResult) : list str :=
  match p_videos r with Some l => l | None => [] end.

(** What C3 asks of an extracted result. *)
Definition media_bounded (r : PartialResult) : Prop :=
  List.length (images_of r) <= 20 /\ List.length (videos_of r) <= 10
  /\ NoDup (images_of r) /\ NoDup (videos_of r).

(** An engine that finds no match, for pages whose markup holds none. *)
Definition no_matches : RegExpEngine := fun _ _ => [].

Definition element (text : option str) (attributes : string -> option str)
           (source : str) : Element :=
  {| textContent := text;
     getAttribute := attributes;
     src := source;
     parentElement_textContent := None |}.

(** An [img] element with a [src] attribute and no other. *)
Definition img (source : str) : Element :=
  element None
          (fun attribute => if String.eqb attribute "src" then Some source else None)
          source.

(** An element with nothing but its text. *)
Definition text_node (text : str) : Element := element (Some text) (fun _ => None) [].

(** A Zhihu article whose text holds the same picture twenty-one times. *)
Definition zhihu_article_page : Page :=
  {| waitForLoadState := Returned tt;
     page_title := Returned (lit "An article");
     querySelectorAll := fun selector =>
       if String.eqb selector ".Post-RichTextContainer img, .RichText img"
       then List.repeat (img (lit "https://pic.example/a.jpg")) 21
       else [];
     body := Some {| innerHTML := []; innerText := [] |} |}.

(** The texts of the content containers found on a page, in the priority
    order of their selectors, and the text of the page body. *)
Definition texts_at (page : Page) (selectors : list string) : list str :=
  flat_map (fun selector =>
              match querySelectorAll page selector with
              | [] => []
              | el :: _ => [text_of el]
              end)
           selectors.

Definition container_texts (page : Page) : list str :=
  texts_at page Generic.contentSelectors.

Definition body_text (page : Page) : str :=
  match querySelectorAll page "body" with
  | [] => []
  | el :: _ => text_of el
  end.

Definition long_enough (text : str) : bool := 100 <? List.length text.

(** The container text the generic strategy settles on: the first one of
    more than 100 units, and when there is none the last one found. *)
Definition chosen_container (page : Page) : str :=
  match find long_enough (container_texts page) with
  | Some text => text
  | None => last (container_texts page) []
  end.

(** A page of an unknown site: a short [article] inside a longer body, and
    the same picture twice. *)
Definition blog_page : Page :=
  {| waitForLoadState := Returned tt;
     page_title := Returned (lit "A blog");
     querySelectorAll := fun selector =>
       if String.eqb selector "article" then [text_node (lit "short")]
       else if String.eqb selector "body"
            then [text_node (lit "short and the rest of the page")]
       else if String.eqb selector "img"
            then [img (lit "/a.png"); img (lit "/a.png")]
       else [];
     body := Some {| innerHTML := []; innerText := [] |} |}.

(** A [video] element with the given [src]. *)
Definition video (source : str) : Element := element None (fun _ => None) source.

(** A page of an unknown site with thirteen videos, one of them twice and
    one without a source. *)
Definition video_gallery : Page :=
  {| waitForLoadState := Returned tt;
     page_title := Returned (lit "Videos");
     querySelectorAll := fun selector =>
       if String.eqb selector "video"
       then List.map (fun c => video (lit "/v/" ++ [c]))
                     [97; 98; 97; 99; 100; 101; 102; 103; 104; 105; 106; 107]%N
            ++ [video []]
       else [];
     body := Some {| innerHTML := []; innerText := [] |} |}.

(** The test a URL passes before a strategy lists it as a video. *)
Definition video_filter (p : Platform) : str -> bool :=
  match p with
  | twitter => Twitter.isValidVideo
  | xiaohongshu => Xiaohongshu.isValidVideo
  | zhihu | wechat | unknown => truthy
  end.

(** A text as the strategies return it: single-spaced and with no
    whitespace in front.  A text cut by [slice] may end in a space. *)
Definition tidy (s : str) : bool := single_spaced s && negb (starts_ws s).


(** A note of Xiaohongshu: the title with the site suffix, and two profile
    links, the first of them the one-character link of the logged-in user. *)
Definition note_page : Page :=
  {| waitForLoadState := Returned tt;
     page_title := Returned (lit "A note" ++ Xiaohongshu.TITLE_SUFFIX);
     querySelectorAll := fun selector =>
       if String.eqb selector "a[href*='/user/profile/']"
       then [text_node Xiaohongshu.ME; text_node (lit "  Alice  ")]
       else [];
     body := Some {| innerHTML := []; innerText := lit "A note by Alice" |} |}.

(** The platform tag that belongs to a URL: the first signature in its
    lowercased host name, [unknown] for a string that is no URL. *)
Definition platform_of (URL_hostname : str -> option str) (url : str) : Platform :=
  match URL_hostname url with
  | Some hostname => first_match signatures (toLowerCase hostname)
  | None => unknown
  end.

(** The message of the TypeError of the URL constructor, for the examples. *)
Definition invalid_URL : str -> str := fun _ => lit "Invalid URL".

(** An engine that never makes a callback: its run does not settle. *)
Definition hangs : PlaywrightCrawler := fun _ _ => [].

(** The login wall of Xiaohongshu: a page whose title holds the word for
    login and not the site suffix. *)
Definition login_wall : Page :=
  {| waitForLoadState := Returned tt;
     page_title := Returned Xiaohongshu.LOGIN;
     querySelectorAll := fun _ => [];
     body := Some {| innerHTML := []; innerText := [] |} |}.

Definition note_url : str := lit "https://www.xiaohongshu.com/explore/1".

(** An engine run in which the page loads and the handler runs once. *)
Definition loads (page : Page) : PlaywrightCrawler :=
  fun _ url => [RequestHandler 1000 page url; RunSettled 1001].

(** An engine run in which the first attempt outlives its time limit, the
    retry fails, and the handler of the first attempt finishes afterwards. *)
Definition late_handler (page : Page) : PlaywrightCrawler :=
  fun _ url =>
    [ FailedRequestHandler 5000 url (lit "Navigation timed out");
      RequestHandler 6000 page url;
      RunSettled 6001 ].

Definition default_options : CrawlOptions :=
  {| timeout := None; cookies := CookiesUndefined |}.

(** The result of a crawl of the blog page that goes well. *)
Definition blog_result : CrawlResult :=
  {| success := true; platform := unknown;
     Types.url := lit "https://blog.example/";
     title := lit "A blog"; author := Some []; content := lit "short";
     images := [lit "/a.png"; lit "/a.png"]; videos := [];
     publishedAt := None; crawledAt := 1000; error := None |}.

(** The failed result of a navigation that timed out on the blog page. *)
Definition timed_out_result : CrawlResult :=
  {| success := false; platform := unknown;
     Types.url := lit "https://blog.example/";
     title := []; author := None; content := [];
     images := []; videos := []; publishedAt := None;
     crawledAt := 5000;
     error := Some (lit "Navigation timed out") |}.

(** A list that is duplicate-free and cut to [n] entries. *)
Definition capped (n : nat) (l : list str) : Prop :=
  List.length l <= n /\ NoDup l.

(** The result a callback passes to [resolve] when it is the first to be
    made. *)
Definition first_result (self : BaseCrawler) (url : str) (ev : Event)
  : option CrawlResult :=
  promise (step self url initial ev).

(** The message of the failed result that [requestHandler] builds from what
    it caught. *)
Definition caught_message (e : Thrown) : str :=
  match e with
  | ErrorObject message => message
  | NotAnError => lit "Unknown error"
  end.

(** The wire format of cookies, [name1=value1; name2=value2]. *)
Fixpoint cookie_header (pairs : list (str * str)) : str :=
  match pairs with
  | [] => []
  | [(n, v)] => n ++ EQUALS :: v
  | (n, v) :: rest => (n ++ EQUALS :: v) ++ SEMICOLON :: SPACE :: cookie_header rest
  end.

(** A name or value that the wire format carries unchanged: not empty, no
    whitespace at either end, and none of the separators in it. *)
Definition wire_safe (separators : list N) (s : str) : bool :=
  truthy s && negb (starts_ws s) && negb (ends_ws s)
  && forallb (fun c => negb (existsb (N.eqb c) separators)) s.

Definition wire_pair (p : str * str) : bool :=
  wire_safe [SEMICOLON; EQUALS] (fst p) && wire_safe [SEMICOLON] (snd p).

Definition cookie_entry (fallback : str) (p : str * str) : CookieParam :=
  {| name := fst p; value := snd p; domain := Some fallback; path := None |}.

Definition is_RequestHandler (ev : Event) : bool :=
  match ev with
  | RequestHandler _ _ _ => true
  | _ => false
  end.

(** The number of callbacks of a run that are request handlers. *)
Definition handler_count (trace : list Event) : nat :=
  List.length (List.filter is_RequestHandler trace).

(** A run in which the navigation fails for good. *)
Definition navigation_fails : PlaywrightCrawler :=
  fun _ url => [FailedRequestHandler 5000 url (lit "Navigation timed out");
                RunSettled 5001].

(** ** The text normalizer *)

Section CleanText.

Lemma is_ws_newline : is_ws NEWLINE = true.
Proof. reflexivity. Qed.

Lemma replace_ws_runs_from_shape (s : str) :
  forall in_run,
    single_spaced (replace_ws_runs_from in_run s) = true
    /\ (in_run = true -> starts_ws (replace_ws_runs_from in_run s) = false).
Proof.
  induction s as [|c s IH]; intros in_run; simpl.
  - split; reflexivity.
  - destruct (is_ws c) eqn:Hc.
    + destruct in_run.
      * apply IH.
      * destruct (IH true) as [Hs Hh]. split; [|discriminate].
        simpl. rewrite Hs, andb_true_r.
        specialize (Hh eq_refl).
        destruct (replace_ws_runs_from true s); [reflexivity|].
        simpl in Hh. rewrite Hh. reflexivity.
    + destruct (IH false) as [Hs _]. split.
      * simpl. rewrite Hc, Hs. reflexivity.
      * intros _. simpl. exact Hc.
Qed.

Lemma replace_ws_runs_from_no_newline (s : str) :
  forall in_run, ~ In NEWLINE (replace_ws_runs_from in_run s).
Proof.
  induction s as [|c s IH]; intros in_run; simpl; [tauto|].
  destruct (is_ws c) eqn:Hc.
  - destruct in_run; [apply IH|].
    simpl. intros [H|H]; [discriminate H | exact (IH _ H)].
  - simpl. intros [H|H]; [|exact (IH _ H)].
    subst c. rewrite is_ws_newline in Hc. discriminate.
Qed.

Lemma replace_ws_runs_from_ink (s : str) :
  forall in_run, ink (replace_ws_runs_from in_run s) = ink s.
Proof.
  induction s as [|c s IH]; intros in_run; simpl; [reflexivity|].
  destruct (is_ws c) eqn:Hc; simpl.
  - destruct in_run; [apply IH|]. simpl. apply IH.
  - rewrite Hc. simpl. f_equal. apply IH.
Qed.

Lemma replace_ws_runs_from_fixed (s : str) :
  forall in_run,
    single_spaced s = true ->
    (in_run = true -> starts_ws s = false) ->
    replace_ws_runs_from in_run s = s.
Proof.
  induction s as [|c s IH]; intros in_run Hs Hh; simpl; [reflexivity|].
  simpl in Hs. apply andb_true_iff in Hs as [Hc Hs].
  destruct (is_ws c) eqn:Hw.
  - destruct in_run.
    + specialize (Hh eq_refl). simpl in Hh. congruence.
    + apply andb_true_iff in Hc as [Hsp Hnext].
      apply N.eqb_eq in Hsp. subst c. f_equal.
      apply IH; [exact Hs|]. intros _.
      destruct s; [reflexivity|]. simpl.
      apply negb_true_iff in Hnext. exact Hnext.
  - f_equal. apply IH; [exact Hs | discriminate].
Qed.

Lemma replace_blank_lines_from_fixed (s : str) :
  ~ In NEWLINE s -> replace_blank_lines_from 0 s = s.
Proof.
  induction s as [|c s IH]; intros Hn; simpl; [reflexivity|].
  destruct (c =? NEWLINE)%N eqn:Hc.
  - apply N.eqb_eq in Hc. subst c. exfalso. apply Hn. left. reflexivity.
  - f_equal. apply IH. intros H. apply Hn. right. exact H.
Qed.

Lemma trimStart_incl (s : str) : forall x, In x (trimStart s) -> In x s.
Proof.
  induction s as [|c s IH]; intros x; simpl; [tauto|].
  destruct (is_ws c); [intros H; right; apply IH; exact H | tauto].
Qed.

Lemma trimEnd_incl (s : str) : forall x, In x (trimEnd s) -> In x s.
Proof.
  induction s as [|c s IH]; intros x; simpl; [tauto|].
  destruct (trimEnd s) as [|d t] eqn:Ht.
  - destruct (is_ws c); simpl; tauto.
  - intros [H|H]; [left; exact H | right; apply IH; exact H].
Qed.

Lemma trimStart_shape (s : str) :
  single_spaced s = true ->
  single_spaced (trimStart s) = true /\ starts_ws (trimStart s) = false.
Proof.
  induction s as [|c s IH]; intros Hs; simpl; [split; reflexivity|].
  pose proof Hs as Hs'. simpl in Hs'. apply andb_true_iff in Hs' as [_ Hs'].
  destruct (is_ws c) eqn:Hc.
  - apply IH. exact Hs'.
  - split; [exact Hs | simpl; exact Hc].
Qed.

Lemma trimEnd_nil_all_ws (s : str) :
  trimEnd s = [] -> forall x, In x s -> is_ws x = true.
Proof.
  induction s as [|c s IH]; simpl; [tauto|].
  destruct (trimEnd s) as [|d t] eqn:Ht; [|discriminate].
  destruct (is_ws c) eqn:Hc; [|discriminate].
  intros _ x [H|H]; [subst x; exact Hc | apply IH; [reflexivity | exact H]].
Qed.

Lemma trimEnd_head (e : N) (s d : str) (x : N) :
  trimEnd (e :: s) = x :: d -> x = e.
Proof.
  simpl. destruct (trimEnd s); [destruct (is_ws e)|];
    intros H; inversion H; reflexivity.
Qed.

Lemma trimEnd_shape (s : str) :
  single_spaced s = true ->
  single_spaced (trimEnd s) = true
  /\ ends_ws (trimEnd s) = false
  /\ (starts_ws s = false -> starts_ws (trimEnd s) = false).
Proof.
  induction s as [|c s IH]; intros Hs; simpl; [repeat split; reflexivity|].
  simpl in Hs. apply andb_true_iff in Hs as [Hc Hs].
  destruct (IH Hs) as (IH1 & IH2 & IH3).
  destruct (trimEnd s) as [|d t] eqn:Ht.
  - destruct (is_ws c) eqn:Hw; simpl.
    + repeat split; congruence.
    + rewrite Hw. repeat split; reflexivity.
  - repeat split.
    + simpl. simpl in IH1. rewrite IH1, andb_true_r.
      destruct (is_ws c) eqn:Hw; [|reflexivity].
      apply andb_true_iff in Hc as [Hsp Hnext]. rewrite Hsp. simpl.
      destruct s as [|e s']; [discriminate Ht|].
      rewrite (trimEnd_head _ _ _ _ Ht). exact Hnext.
    + simpl. simpl in IH2. exact IH2.
    + simpl. tauto.
Qed.

Lemma trimStart_fixed (s : str) : starts_ws s = false -> trimStart s = s.
Proof. destruct s as [|c s]; simpl; [reflexivity|]. intros ->. reflexivity. Qed.

Lemma trimEnd_fixed (s : str) : ends_ws s = false -> trimEnd s = s.
Proof.
  induction s as [|c s IH]; simpl; [reflexivity|].
  destruct s as [|d s'].
  - simpl. intros ->. reflexivity.
  - intros H. rewrite (IH H). reflexivity.
Qed.

Lemma trimStart_ink (s : str) : ink (trimStart s) = ink s.
Proof.
  induction s as [|c s IH]; simpl; [reflexivity|].
  destruct (is_ws c) eqn:Hc; simpl; [exact IH | rewrite Hc; reflexivity].
Qed.

Lemma ink_all_ws (s : str) : (forall x, In x s -> is_ws x = true) -> ink s = [].
Proof.
  induction s as [|c s IH]; simpl; intros H; [reflexivity|].
  rewrite (H c (or_introl eq_refl)). simpl. apply IH.
  intros x Hx. apply H. right. exact Hx.
Qed.

Lemma trimEnd_ink (s : str) : ink (trimEnd s) = ink s.
Proof.
  induction s as [|c s IH]; simpl; [reflexivity|].
  destruct (trimEnd s) as [|d t] eqn:Ht.
  - rewrite (ink_all_ws s (trimEnd_nil_all_ws s Ht)).
    destruct (is_ws c) eqn:Hc; simpl; rewrite ?Hc; reflexivity.
  - rewrite <- IH. destruct (is_ws c) eqn:Hc; simpl; rewrite Hc; reflexivity.
Qed.

Lemma starts_ink_words (s : str) : starts_ink s = true -> words s <> [].
Proof.
  destruct s as [|c s]; simpl; [discriminate|].
  intros H. apply negb_true_iff in H. rewrite H.
  destruct (starts_ink s); [destruct (words s)|]; discriminate.
Qed.

Lemma all_ws_words (s : str) :
  (forall x, In x s -> is_ws x = true) -> words s = [].
Proof.
  induction s as [|c s IH]; simpl; intros H; [reflexivity|].
  rewrite (H c (or_introl eq_refl)). apply IH.
  intros x Hx. apply H. right. exact Hx.
Qed.

Lemma replace_ws_runs_from_starts_ink (s : str) :
  starts_ink (replace_ws_runs_from false s) = starts_ink s.
Proof.
  destruct s as [|c s]; simpl; [reflexivity|].
  destruct (is_ws c) eqn:Hc; simpl; [reflexivity | rewrite Hc; reflexivity].
Qed.

Lemma replace_ws_runs_from_words (s : str) :
  forall in_run, words (replace_ws_runs_from in_run s) = words s.
Proof.
  induction s as [|c s IH]; intros in_run; simpl; [reflexivity|].
  destruct (is_ws c) eqn:Hc.
  - destruct in_run; [apply IH|]. simpl. apply IH.
  - simpl. rewrite Hc, replace_ws_runs_from_starts_ink, IH. reflexivity.
Qed.

Lemma trimStart_words (s : str) : words (trimStart s) = words s.
Proof.
  induction s as [|c s IH]; simpl; [reflexivity|].
  destruct (is_ws c) eqn:Hc; simpl; [exact IH | rewrite Hc; reflexivity].
Qed.

Lemma trimEnd_words (s : str) : words (trimEnd s) = words s.
Proof.
  induction s as [|c s IH]; simpl; [reflexivity|].
  destruct (trimEnd s) as [|d t] eqn:Ht.
  - pose proof (trimEnd_nil_all_ws s Ht) as Hall.
    rewrite (all_ws_words s Hall).
    assert (Hsi : starts_ink s = false).
    { destruct s as [|e s']; [reflexivity|]. simpl.
      rewrite (Hall e (or_introl eq_refl)). reflexivity. }
    rewrite Hsi.
    destruct (is_ws c) eqn:Hc; simpl; rewrite ?Hc; reflexivity.
  - assert (Hsi : starts_ink (d :: t) = starts_ink s).
    { destruct s as [|e s']; [discriminate Ht|].
      rewrite (trimEnd_head _ _ _ _ Ht). reflexivity. }
    change (words (c :: d :: t)) with
      (if is_ws c then words (d :: t)
       else if starts_ink (d :: t)
            then match words (d :: t) with
                 | w :: ws => (c :: w) :: ws
                 | [] => [[c]]
                 end
            else [c] :: words (d :: t)).
    rewrite Hsi, IH. reflexivity.
Qed.

Lemma join_cons_head (c : N) (w : str) (ws : list str) :
  join SPACE ((c :: w) :: ws) = c :: join SPACE (w :: ws).
Proof. destruct ws; reflexivity. Qed.

Lemma join_words_trimStart (t : str) :
  single_spaced t = true -> ends_ws t = false ->
  join SPACE (words t) = trimStart t.
Proof.
  induction t as [|c t IH]; intros Hs He; [reflexivity|].
  pose proof Hs as Hs'. simpl in Hs'. apply andb_true_iff in Hs' as [Hc Hs'].
  assert (He' : t <> [] -> ends_ws t = false).
  { destruct t; [congruence | intros _; exact He]. }
  simpl. destruct (is_ws c) eqn:Hw.
  - destruct t as [|d t']; [simpl in He; congruence|].
    apply IH; [exact Hs' | apply He'; discriminate].
  - destruct t as [|d t']; [reflexivity|].
    specialize (IH Hs' (He' ltac:(discriminate))).
    destruct (starts_ink (d :: t')) eqn:Hsi.
    + pose proof (starts_ink_words _ Hsi) as Hne.
      destruct (words (d :: t')) as [|w ws]; [congruence|].
      rewrite join_cons_head, IH. f_equal.
      apply trimStart_fixed. simpl in Hsi |- *.
      apply negb_true_iff in Hsi. exact Hsi.
    + simpl in Hsi. apply negb_false_iff in Hsi.
      pose proof Hs' as Hd. simpl in Hd. rewrite Hsi in Hd.
      apply andb_true_iff in Hd as [Hd _].
      apply andb_true_iff in Hd as [Hsp Hnext].
      apply N.eqb_eq in Hsp. subst d.
      destruct t' as [|e t'']; [simpl in He; congruence|].
      assert (Hei : starts_ink (e :: t'') = true) by exact Hnext.
      pose proof (starts_ink_words _ Hei) as Hne.
      change (words (SPACE :: e :: t'')) with (words (e :: t'')) in *.
      change (trimStart (SPACE :: e :: t'')) with (trimStart (e :: t'')) in IH.
      rewrite (trimStart_fixed (e :: t'')) in IH
        by (simpl; apply negb_true_iff; exact Hnext).
      destruct (words (e :: t'')) as [|w ws] eqn:Hw'; [congruence|].
      change (join SPACE ([c] :: w :: ws)) with (c :: SPACE :: join SPACE (w :: ws)).
      rewrite IH. reflexivity.
Qed.

Lemma cleanText_unfold (s : str) : cleanText s = trim (replace_ws_runs s).
Proof.
  unfold cleanText, replace_blank_lines.
  rewrite replace_blank_lines_from_fixed; [reflexivity|].
  apply replace_ws_runs_from_no_newline.
Qed.

Lemma cleanText_normalized (s : str) : normalized (cleanText s) = true.
Proof.
  rewrite cleanText_unfold. unfold trim, replace_ws_runs, normalized.
  destruct (replace_ws_runs_from_shape s false) as [Hs _].
  destruct (trimStart_shape _ Hs) as [H1 H2].
  destruct (trimEnd_shape _ H1) as (H3 & H4 & H5).
  rewrite H3, H4, (H5 H2). reflexivity.
Qed.

Lemma cleanText_fixed (t : str) : normalized t = true -> cleanText t = t.
Proof.
  unfold normalized. intros H.
  apply andb_true_iff in H as [H He]. apply andb_true_iff in H as [Hs Hb].
  apply negb_true_iff in He, Hb.
  rewrite cleanText_unfold. unfold replace_ws_runs, trim.
  rewrite replace_ws_runs_from_fixed; [|exact Hs|discriminate].
  rewrite (trimStart_fixed _ Hb). apply trimEnd_fixed. exact He.
Qed.

Lemma cleanText_no_newline (s : str) : ~ In NEWLINE (cleanText s).
Proof.
  rewrite cleanText_unfold. unfold trim, replace_ws_runs. intros H.
  apply trimEnd_incl, trimStart_incl in H.
  exact (replace_ws_runs_from_no_newline s false H).
Qed.

Lemma cleanText_ink (s : str) : ink (cleanText s) = ink s.
Proof.
  rewrite cleanText_unfold. unfold trim, replace_ws_runs.
  rewrite trimEnd_ink, trimStart_ink. apply replace_ws_runs_from_ink.
Qed.

End CleanText.

(** C7: the text normalizer is idempotent; its output is the words of the
    input joined by single spaces, so every run of whitespace between two
    words has become one space, the whitespace at both ends is gone, and no
    newline, hence no blank line, is left. *)
Theorem cleanText_idempotent (s : str) :
  cleanText (cleanText s) = cleanText s
  /\ cleanText s = join SPACE (words s)
  /\ normalized (cleanText s) = true
  /\ ~ In NEWLINE (cleanText s).
Proof.
  pose proof (cleanText_normalized s) as Hn.
  split; [apply cleanText_fixed; exact Hn|].
  split; [|split; [exact Hn | apply cleanText_no_newline]].
  unfold normalized in Hn.
  apply andb_true_iff in Hn as [Hn He]. apply andb_true_iff in Hn as [Hs Hb].
  apply negb_true_iff in He, Hb.
  rewrite <- (trimStart_fixed _ Hb) at 1.
  rewrite <- (join_words_trimStart _ Hs He).
  f_equal. rewrite cleanText_unfold. unfold trim, replace_ws_runs.
  rewrite trimEnd_words, trimStart_words. apply replace_ws_runs_from_words.
Qed.

(** C10: the output of the text normalizer holds no newline.  The first
    substitution already leaves none, so the blank-line substitution that
    follows it changes nothing, and the normalizer is the trimmed result of
    the first substitution alone. *)
Theorem cleanText_never_keeps_newline (s : str) :
  ~ In NEWLINE (replace_ws_runs s)
  /\ replace_blank_lines (replace_ws_runs s) = replace_ws_runs s
  /\ cleanText s = trim (replace_ws_runs s)
  /\ ~ In NEWLINE (cleanText s).
Proof.
  split; [apply replace_ws_runs_from_no_newline|].
  split; [apply replace_blank_lines_from_fixed, replace_ws_runs_from_no_newline|].
  split; [apply cleanText_unfold | apply cleanText_no_newline].
Qed.

Example replace_blank_lines_on_blank_line :
  replace_blank_lines (lit "a" ++ [NEWLINE; SPACE; NEWLINE; NEWLINE] ++ lit " b")
  = lit "a" ++ [NEWLINE] ++ lit " b".
Proof. reflexivity. Qed.

(** ** The cookie normalizer *)

Section Cookies.

Lemma join_cons (sep c : N) (w : str) (ws : list str) :
  join sep ((c :: w) :: ws) = c :: join sep (w :: ws).
Proof. destruct ws; reflexivity. Qed.

Lemma join_split_array (sep : N) (s : str) : join sep (split_array sep s) = s.
Proof.
  unfold split_array.
  induction s as [|c s IH]; [reflexivity|].
  simpl. destruct (split sep s) as [h t].
  destruct (c =? sep)%N eqn:Hc.
  - apply N.eqb_eq in Hc. subst c.
    change (join sep ([] :: h :: t)) with (sep :: join sep (h :: t)).
    rewrite IH. reflexivity.
  - rewrite join_cons, IH. reflexivity.
Qed.

(** Joining what follows the first piece gives back what follows the first
    separator: the first separator is the only one that counts. *)
Lemma split_cut_at_first (sep : N) (s : str) :
  cut_at_first sep s = (fst (split sep s), join sep (snd (split sep s))).
Proof.
  induction s as [|c s IH]; [reflexivity|].
  simpl. pose proof (join_split_array sep s) as Hj. unfold split_array in Hj.
  destruct (split sep s) as [h t]. simpl in IH.
  destruct (c =? sep)%N.
  - unfold fst, snd. rewrite Hj. reflexivity.
  - rewrite IH. reflexivity.
Qed.

Lemma cookie_of_pair_spec (fallback pair : str) :
  cookie_of_pair fallback pair = spec_cookie_of_pair fallback pair.
Proof.
  unfold cookie_of_pair, spec_cookie_of_pair.
  rewrite split_cut_at_first.
  destruct (split EQUALS (trim pair)) as [h t]. reflexivity.
Qed.

Lemma parseCookies_string_spec (s fallback : str) :
  parseCookies (CookiesString s) fallback = spec_parse_cookie_string s fallback.
Proof.
  unfold spec_parse_cookie_string.
  destruct s as [|c s]; [reflexivity|].
  simpl parseCookies. f_equal.
  apply map_ext. intros pair. apply cookie_of_pair_spec.
Qed.

End Cookies.

(** C5: on a cookie string the normalizer does what the specification says:
    it splits on the semicolon, trims each pair, cuts it at the first equals
    sign only, attaches the fallback domain and leaves out the entries with
    an empty name or value.  The string [a=1; b=2] gives two entries,
    [a=b=c] gives the value [b=c], the example of the specification gives
    the two entries it lists, and an absent input gives the empty list. *)
Theorem parseCookies_string_form :
  (forall s fallback,
      parseCookies (CookiesString s) fallback = spec_parse_cookie_string s fallback)
  /\ (forall fallback,
         parseCookies (CookiesString (lit "a=1; b=2")) fallback
         = [ {| name := lit "a"; value := lit "1";
                domain := Some fallback; path := None |};
             {| name := lit "b"; value := lit "2";
                domain := Some fallback; path := None |} ])
  /\ (forall fallback,
         parseCookies (CookiesString (lit "a=b=c")) fallback
         = [ {| name := lit "a"; value := lit "b=c";
                domain := Some fallback; path := None |} ])
  /\ parseCookies (CookiesString (lit " foo = bar ; baz=qux=1 ")) (lit ".example.com")
     = [ {| name := lit "foo"; value := lit "bar";
            domain := Some (lit ".example.com"); path := None |};
         {| name := lit "baz"; value := lit "qux=1";
            domain := Some (lit ".example.com"); path := None |} ]
  /\ (forall fallback, parseCookies CookiesUndefined fallback = []).
Proof.
  split; [exact parseCookies_string_spec|].
  repeat split; intros; reflexivity.
Qed.

(** C4, as stated, fails on the list form: an entry with an empty name and
    an empty value is passed through, not dropped. *)
Lemma parseCookies_list_keeps_empty_entries :
  ~ (forall cookies fallback c,
        In c (parseCookies cookies fallback) ->
        truthy c.(name) = true /\ truthy c.(value) = true).
Proof.
  intros H.
  destruct (H (CookiesArray [ {| name := []; value := [];
                                 domain := None; path := None |} ])
              (lit ".example.com")
              {| name := []; value := [];
                 domain := Some (lit ".example.com"); path := None |}
              (or_introl eq_refl)) as [Hn _].
  discriminate Hn.
Qed.

(** C4, amended: in the string form every entry of the output has a
    non-empty name, a non-empty value and the fallback domain; in the list
    form the entries are passed through one for one, with their name, value
    and path as they are, and with the fallback in place of a missing or
    empty domain. *)
Theorem parseCookies_invariant (fallback : str) :
  (forall s,
      Forall (fun c => truthy c.(name) = true /\ truthy c.(value) = true
                       /\ c.(domain) = Some fallback)
             (parseCookies (CookiesString s) fallback))
  /\ (forall l,
         Forall2 (fun c c' => c'.(name) = c.(name) /\ c'.(value) = c.(value)
                              /\ c'.(path) = c.(path)
                              /\ c'.(domain)
                                 = Some match c.(domain) with
                                        | Some (x :: d) => x :: d
                                        | _ => fallback
                                        end)
                 l (parseCookies (CookiesArray l) fallback)).
Proof.
  split.
  - intros s. rewrite parseCookies_string_spec. unfold spec_parse_cookie_string.
    apply Forall_forall. intros c Hc.
    apply filter_In in Hc as [Hin Hok].
    apply andb_true_iff in Hok as [Hn Hv].
    apply in_map_iff in Hin as [pair [Hpair _]]. subst c.
    repeat split; try assumption.
    unfold spec_cookie_of_pair.
    destruct (cut_at_first EQUALS (trim pair)). reflexivity.
  - intros l. simpl. induction l as [|c l IH]; constructor; [|exact IH].
    repeat split.
Qed.

(** ** The platform classifier *)

Section Classifier.

Lemma startsWith_app (p s : str) :
  startsWith p s = true <-> exists b, s = p ++ b.
Proof.
  revert s. induction p as [|a p IH]; intros s; simpl.
  - split; [intros _; exists s; reflexivity | reflexivity].
  - destruct s as [|c s].
    + split; [discriminate | intros [b Hb]; discriminate Hb].
    + rewrite andb_true_iff, N.eqb_eq, IH. split.
      * intros [-> [b ->]]. exists b. reflexivity.
      * intros [b Hb]. inversion Hb; subst. split; [reflexivity|].
        exists b. reflexivity.
Qed.

Lemma includes_app (p s : str) :
  includes p s = true <-> exists a b, s = a ++ p ++ b.
Proof.
  induction s as [|c s IH].
  - simpl. rewrite orb_false_r, startsWith_app. split.
    + intros [b Hb]. exists [], b. exact Hb.
    + intros [a [b Hb]]. destruct a; [exists b; exact Hb | discriminate Hb].
  - change (includes p (c :: s)) with (startsWith p (c :: s) || includes p s).
    rewrite orb_true_iff, startsWith_app, IH. split.
    + intros [[b Hb] | [a [b Hb]]].
      * exists [], b. exact Hb.
      * exists (c :: a), b. rewrite Hb. reflexivity.
    + intros [a [b Hb]]. destruct a as [|x a].
      * left. exists b. exact Hb.
      * right. inversion Hb; subst. exists a, b. reflexivity.
Qed.

(** A host that holds a signature holds every ending of that signature. *)
Lemma includes_longer (q p s : str) :
  includes (q ++ p) s = true -> includes p s = true.
Proof.
  rewrite !includes_app. intros [a [b Hb]].
  exists (a ++ q), b. rewrite Hb, <- !app_assoc. reflexivity.
Qed.

Lemma classify_host_first_match (host : str) :
  classify_host host = first_match signatures host.
Proof.
  unfold classify_host, signatures, first_match.
  destruct (includes (lit "zhihu.com") host); [reflexivity|].
  destruct (includes (lit "xiaohongshu.com") host); [reflexivity|].
  destruct (includes (lit "xhslink.com") host); [reflexivity|].
  destruct (includes (lit "twitter.com") host); [reflexivity|].
  destruct (includes (lit "x.com") host); [reflexivity|].
  destruct (includes (lit "weixin.qq.com") host) eqn:Hw; [reflexivity|].
  destruct (includes (lit "mp.weixin.qq.com") host) eqn:Hmp; [|reflexivity].
  change (lit "mp.weixin.qq.com") with (lit "mp." ++ lit "weixin.qq.com") in Hmp.
  apply includes_longer in Hmp. congruence.
Qed.

End Classifier.

(** C8: on a well-formed URL the classifier lowercases the host name and
    returns the platform of the first signature, in the fixed order
    zhihu.com, xiaohongshu.com, xhslink.com, twitter.com, x.com,
    weixin.qq.com, that occurs in it as a substring, and [unknown] when none
    occurs.  It is a function of the URL alone. *)
Theorem detectPlatform_first_match
        (URL_hostname : str -> option str) (url hostname : str) :
  URL_hostname url = Some hostname ->
  detectPlatform URL_hostname url
  = Some (first_match signatures (toLowerCase hostname))
  /\ (forallb (fun sg => negb (includes (fst sg) (toLowerCase hostname))) signatures
      = true ->
      detectPlatform URL_hostname url = Some unknown).
Proof.
  intros Hurl. unfold detectPlatform. rewrite Hurl, classify_host_first_match.
  split; [reflexivity|].
  generalize (toLowerCase hostname). intros host.
  induction signatures as [|[sg p] sigs IH]; simpl; [reflexivity|].
  intros H. apply andb_true_iff in H as [Hsg Hrest].
  apply negb_true_iff in Hsg. rewrite Hsg. apply IH. exact Hrest.
Qed.

Lemma detectPlatform_first_match_witness :
  https_hostname (lit "https://WWW.Zhihu.com/p/12345") = Some (lit "WWW.Zhihu.com")
  /\ detectPlatform https_hostname (lit "https://WWW.Zhihu.com/p/12345") = Some zhihu.
Proof.
  split; [reflexivity|].
  exact (proj1 (detectPlatform_first_match https_hostname
                  (lit "https://WWW.Zhihu.com/p/12345") (lit "WWW.Zhihu.com")
                  eq_refl)).
Defined.

Example detectPlatform_examples :
  List.map (detectPlatform https_hostname)
           [ lit "https://www.zhihu.com/question/1/answer/2";
             lit "https://www.xiaohongshu.com/explore/1";
             lit "https://xhslink.com/a/b";
             lit "https://twitter.com/u/status/1";
             lit "https://x.com/u/status/1";
             lit "https://mp.weixin.qq.com/s/abc";
             lit "https://example.org/";
             lit "ftp://zhihu.com/" ]
  = [ Some zhihu; Some xiaohongshu; Some xiaohongshu; Some twitter; Some twitter;
      Some wechat; Some unknown; None ].
Proof. reflexivity. Qed.

(** ** Media lists *)

Section Media.

Variable rx : RegExpEngine.

Lemma eqb_eq (a b : str) : JS.eqb a b = true <-> a = b.
Proof.
  unfold JS.eqb. destruct (list_eq_dec N.eq_dec a b); split; congruence.
Qed.

Lemma mem_In (x : str) (l : list str) : mem x l = true <-> In x l.
Proof.
  unfold mem. rewrite existsb_exists. split.
  - intros [y [Hy Heq]]. apply eqb_eq in Heq. subst y. exact Hy.
  - intros H. exists x. split; [exact H | apply eqb_eq; reflexivity].
Qed.

Lemma NoDup_snoc (x : str) (l : list str) :
  mem x l = false -> NoDup l -> NoDup (l ++ [x]).
Proof.
  intros Hmem Hl.
  assert (Hx : ~ In x l).
  { intros H. apply mem_In in H. congruence. }
  clear Hmem. induction l as [|y l IH]; simpl.
  - constructor; [intros [] | constructor].
  - inversion Hl; subst. constructor.
    + rewrite in_app_iff. simpl. intros [H | [H | []]]; [tauto|].
      subst y. apply Hx. left. reflexivity.
    + apply IH; [assumption|]. intros H. apply Hx. right. exact H.
Qed.

Lemma NoDup_push_new (acc : list str) (x : str) :
  NoDup acc -> NoDup (push_new acc x).
Proof.
  intros H. unfold push_new. destruct (mem x acc) eqn:Hm; [exact H|].
  apply NoDup_snoc; assumption.
Qed.

Lemma NoDup_push_new_if (ok : str -> bool) (acc : list str) (x : str) :
  NoDup acc -> NoDup (push_new_if ok acc x).
Proof.
  intros H. unfold push_new_if. destruct (ok x); [apply NoDup_push_new|]; exact H.
Qed.

Lemma fold_left_NoDup {A : Type} (f : list str -> A -> list str) (l : list A) :
  (forall acc x, NoDup acc -> NoDup (f acc x)) ->
  forall acc, NoDup acc -> NoDup (fold_left f l acc).
Proof.
  intros Hf. induction l as [|x l IH]; intros acc Hacc; simpl; [exact Hacc|].
  apply IH, Hf, Hacc.
Qed.

Lemma In_slice0 (n : nat) (l : list str) (x : str) : In x (slice0 n l) -> In x l.
Proof.
  unfold slice0. revert n. induction l as [|y l IH]; intros n.
  - rewrite firstn_nil. tauto.
  - destruct n as [|n]; simpl; [tauto|].
    intros [H | H]; [left; exact H | right; exact (IH n H)].
Qed.

Lemma NoDup_slice0 (n : nat) (l : list str) : NoDup l -> NoDup (slice0 n l).
Proof.
  revert n. induction l as [|x l IH]; intros n H.
  - unfold slice0. rewrite firstn_nil. constructor.
  - destruct n as [|n]; [constructor|].
    inversion H; subst.
    change (slice0 (S n) (x :: l)) with (x :: slice0 n l).
    constructor; [|apply IH; assumption].
    intros Hin. apply In_slice0 in Hin. contradiction.
Qed.

Lemma length_slice0 {A : Type} (n : nat) (l : list A) : List.length (slice0 n l) <= n.
Proof. unfold slice0. rewrite length_firstn. apply Nat.le_min_l. Qed.

Lemma NoDup_Set_spread (l : list str) : NoDup (Set_spread l).
Proof.
  unfold Set_spread. apply fold_left_NoDup; [|constructor].
  intros acc x. apply NoDup_push_new.
Qed.

Lemma capped_slice0 (n : nat) (l : list str) : NoDup l -> capped n (slice0 n l).
Proof. intros H. split; [apply length_slice0 | apply NoDup_slice0, H]. Qed.

Lemma capped_nil (n : nat) : capped n [].
Proof. split; [apply Nat.le_0_l | constructor]. Qed.

Lemma capped_catch (n : nat) (o : Outcome (list str)) :
  (forall l, o = Returned l -> capped n l) -> capped n (catch o []).
Proof.
  intros H. destruct o as [l|e]; simpl; [apply H; reflexivity | apply capped_nil].
Qed.

Lemma Returned_inj {A : Type} (a b : A) : Returned a = Returned b -> a = b.
Proof. intros H. inversion H. reflexivity. Qed.

(** The loops that fill a media list keep it duplicate-free. *)
Ltac keep_NoDup :=
  repeat first
    [ assumption
    | apply NoDup_nil
    | apply NoDup_push_new_if
    | apply NoDup_push_new
    | apply fold_left_NoDup; [intros ? ? ?|] ].

(** A script that ends in [slice(0, n)] of such a list. *)
Ltac script_capped :=
  let l := fresh "l" in
  let H := fresh "H" in
  apply capped_catch; intros l H;
  match type of H with
  | bind (body_innerHTML ?page) _ = _ =>
      destruct (body_innerHTML page); cbv beta iota delta [bind] in H;
      [|discriminate H]
  end;
  apply Returned_inj in H; subst l; apply capped_slice0.

Lemma Zhihu_videos_capped (page : Page) : capped 10 (Zhihu.extractVideos rx page).
Proof.
  unfold Zhihu.extractVideos, Zhihu.extractVideos_script.
  script_capped. apply NoDup_Set_spread.
Qed.

Lemma Twitter_videos_capped (page : Page) :
  capped 10 (catch (Twitter.videos_script rx page) []).
Proof. unfold Twitter.videos_script. script_capped. keep_NoDup. Qed.

Lemma Wechat_videos_capped (page : Page) :
  capped 10 (catch (Wechat.videos_script rx page) []).
Proof. unfold Wechat.videos_script. script_capped. keep_NoDup. Qed.

Lemma Generic_videos_capped (page : Page) :
  capped 10 (catch (Generic.videos_script rx page) []).
Proof. unfold Generic.videos_script. script_capped. keep_NoDup. Qed.

Lemma Xiaohongshu_videos_capped (page : Page) :
  capped 10 (catch (Xiaohongshu.videos_script rx page) []).
Proof. unfold Xiaohongshu.videos_script. script_capped. keep_NoDup. Qed.

Lemma Xiaohongshu_images_capped (page : Page) :
  capped 20 (catch (Xiaohongshu.images_script rx page) []).
Proof.
  unfold Xiaohongshu.images_script. script_capped.
  apply fold_left_NoDup; [intros acc pattern Hacc|].
  - apply fold_left_NoDup; [clear acc Hacc; intros acc m Hacc | exact Hacc].
    apply fold_left_NoDup; [clear acc Hacc; intros acc urlMatch Hacc | exact Hacc].
    match goal with |- NoDup (if ?c then _ else _) => destruct c eqn:Hc end;
      [|exact Hacc].
    apply andb_true_iff in Hc as [Hc _]. apply andb_true_iff in Hc as [Hc _].
    apply andb_true_iff in Hc as [_ Hc]. apply negb_true_iff in Hc.
    apply NoDup_snoc; assumption.
  - apply fold_left_NoDup; [intros acc image Hacc | constructor].
    destruct (Xiaohongshu.is_note_image _); [apply NoDup_push_new|]; exact Hacc.
Qed.

End Media.

(** C3, as stated, fails: the Zhihu article branch returns the picture URLs
    as it finds them, here the same URL twenty-one times. *)
Lemma media_not_always_bounded :
  ~ (forall rx platform page url r,
        extract (Registry.getCrawler rx platform) page url = Returned r ->
        media_bounded r).
Proof.
  intros H.
  destruct (H no_matches zhihu zhihu_article_page
              (lit "https://zhuanlan.zhihu.com/p/12345") _ eq_refl)
    as (Hlen & _).
  vm_compute in Hlen. lia.
Qed.

(** C3, amended: for every strategy and every page the videos list has at
    most 10 entries and no URL twice; the images list has at most 20
    entries and no URL twice in the Xiaohongshu strategy, at most 20 entries
    in the generic strategy, and no URL twice in the Wechat strategy; in the
    Zhihu and Twitter strategies it is the list of the non-empty sources of
    the pictures found, as it is. *)
Theorem media_lists_bounded
        (rx : RegExpEngine) (platform : Platform) (page : Page) (url : str)
        (r : PartialResult) :
  extract (Registry.getCrawler rx platform) page url = Returned r ->
  capped 10 (videos_of r)
  /\ match platform with
     | xiaohongshu => capped 20 (images_of r)
     | unknown => List.length (images_of r) <= 20
     | wechat => NoDup (images_of r)
     | zhihu =>
         images_of r
         = if includes (lit "/p/") url
           then Zhihu.image_sources
                  (querySelectorAll page ".Post-RichTextContainer img, .RichText img")
           else if includes (lit "/answer/") url
                then Zhihu.image_sources
                       (querySelectorAll page ".RichContent-inner img")
                else []
     | twitter =>
         images_of r
         = Twitter.image_sources
             (querySelectorAll page "article [data-testid='tweetPhoto'] img")
     end.
Proof.
  destruct platform; simpl; intros H.
  - unfold Zhihu.extract in H.
    destruct (includes (lit "/p/") url); [|destruct (includes (lit "/answer/") url)].
    + unfold Zhihu.extractArticle in H.
      destruct (Zhihu.title_or_page_title page _); [|discriminate H].
      apply Returned_inj in H. subst r.
      split; [apply Zhihu_videos_capped | reflexivity].
    + unfold Zhihu.extractAnswer in H.
      destruct (Zhihu.title_or_page_title page _); [|discriminate H].
      apply Returned_inj in H. subst r.
      split; [apply Zhihu_videos_capped | reflexivity].
    + unfold Zhihu.extractGeneric in H.
      destruct (page_title page); [|discriminate H].
      apply Returned_inj in H. subst r.
      split; [apply Zhihu_videos_capped | reflexivity].
  - unfold Xiaohongshu.extract in H. apply Returned_inj in H. subst r.
    unfold Xiaohongshu.extract_body.
    destruct (page_title page) as [pageTitle|e]; simpl;
      [|split; apply capped_nil].
    destruct (includes Xiaohongshu.LOGIN pageTitle
              && negb (includes Xiaohongshu.TITLE_SUFFIX pageTitle)); simpl.
    + split; apply capped_nil.
    + split; [apply Xiaohongshu_videos_capped | apply Xiaohongshu_images_capped].
  - unfold Twitter.extract in H.
    destruct (page_title page); [|discriminate H].
    apply Returned_inj in H. subst r.
    split; [apply Twitter_videos_capped | reflexivity].
  - unfold Wechat.extract in H. apply Returned_inj in H. subst r.
    split; [apply Wechat_videos_capped | apply NoDup_Set_spread].
  - unfold Generic.extract in H.
    destruct (page_title page); [|discriminate H].
    apply Returned_inj in H. subst r.
    split; [apply Generic_videos_capped | apply length_slice0].
Qed.

Lemma media_lists_bounded_witness :
  extract (Registry.getCrawler no_matches unknown) blog_page (lit "https://blog.example/")
  = Returned {| p_title := Some (lit "A blog");
                p_author := Some [];
                p_content := Some (lit "short");
                p_images := Some [lit "/a.png"; lit "/a.png"];
                p_videos := Some [];
                p_publishedAt := None |}
  /\ capped 10 []
  /\ 2 <= 20.
Proof.
  split; [reflexivity|].
  exact (media_lists_bounded no_matches unknown blog_page (lit "https://blog.example/")
           _ eq_refl).
Defined.

(** ** The generic strategy *)

Section GenericContent.

Variable rx : RegExpEngine.

Lemma last_cons (text : str) (texts : list str) :
  forall default, last (text :: texts) default = last texts text.
Proof.
  revert text. induction texts as [|t texts IH]; intros text default; [reflexivity|].
  change (last (text :: t :: texts) default) with (last (t :: texts) default).
  rewrite (IH t default), (IH t text). reflexivity.
Qed.

Lemma select_content_texts (page : Page) (selectors : list string) :
  forall content,
    Generic.select_content page selectors content
    = match find long_enough (texts_at page selectors) with
      | Some text => text
      | None => last (texts_at page selectors) content
      end.
Proof.
  induction selectors as [|selector rest IH]; intros content; simpl; [reflexivity|].
  unfold eval1. destruct (querySelectorAll page selector) as [|el els]; simpl.
  - apply IH.
  - fold (long_enough (text_of el)).
    destruct (long_enough (text_of el)); [reflexivity|].
    rewrite IH. destruct (find long_enough (texts_at page rest)); [reflexivity|].
    symmetry. apply last_cons.
Qed.

Lemma Generic_content_chosen (page : Page) (url : str) (r : PartialResult) :
  Generic.extract rx page url = Returned r ->
  p_content r
  = Some (slice0 10000
            (cleanText (if truthy (chosen_container page)
                        then chosen_container page
                        else body_text page))).
Proof.
  unfold Generic.extract. intros H.
  destruct (page_title page); [|discriminate H].
  apply Returned_inj in H. subst r. cbv beta iota delta [p_content].
  rewrite select_content_texts.
  fold (container_texts page). fold (chosen_container page).
  destruct (truthy (chosen_container page)); [reflexivity|].
  unfold eval1, body_text.
  destruct (querySelectorAll page "body"); reflexivity.
Qed.

End GenericContent.

(** C6, as stated, fails: when no container text exceeds 100 units the
    strategy does not always fall back to the page body; a short container
    text that was found is kept. *)
Lemma Generic_keeps_short_container_text :
  ~ (forall rx page url r,
        Generic.extract rx page url = Returned r ->
        find long_enough (container_texts page) = None ->
        p_content r = Some (slice0 10000 (cleanText (body_text page)))).
Proof.
  intros H.
  specialize (H no_matches blog_page (lit "https://blog.example/") _ eq_refl eq_refl).
  vm_compute in H. discriminate H.
Qed.

(** C6, amended: the generic strategy goes through its fixed list of
    container selectors in order and takes the first text of more than 100
    units; when there is none it keeps the text of the last container found,
    and it takes the text of the page body only if that is empty (no
    container found, or an empty one last).  The content it returns is this
    text normalized and cut to at most 10000 units. *)
Theorem Generic_content
        (rx : RegExpEngine) (page : Page) (url : str) (r : PartialResult) :
  Generic.extract rx page url = Returned r ->
  exists content,
    p_content r = Some content
    /\ content = slice0 10000
                   (cleanText (if truthy (chosen_container page)
                               then chosen_container page
                               else body_text page))
    /\ List.length content <= 10000
    /\ chosen_container page
       = match find (fun text => 100 <? List.length text) (container_texts page) with
         | Some text => text
         | None => last (container_texts page) []
         end
    /\ container_texts page
       = texts_at page ["article"; "main"; ".content"; ".post-content";
                        ".article-content"; "#content"; ".entry-content"]%string.
Proof.
  intros H. eexists. split; [exact (Generic_content_chosen rx page url r H)|].
  split; [reflexivity|]. split; [apply length_slice0|].
  split; reflexivity.
Qed.

Lemma Generic_content_witness :
  Generic.extract no_matches blog_page (lit "https://blog.example/")
  = Returned {| p_title := Some (lit "A blog");
                p_author := Some [];
                p_content := Some (lit "short");
                p_images := Some [lit "/a.png"; lit "/a.png"];
                p_videos := Some [];
                p_publishedAt := None |}
  /\ exists content, Some (lit "short") = Some content /\ List.length content <= 10000.
Proof.
  split; [reflexivity|].
  destruct (Generic_content no_matches blog_page (lit "https://blog.example/") _ eq_refl)
    as (content & Hc & _ & Hlen & _).
  exists content. split; [exact Hc | exact Hlen].
Defined.

(** ** The session orchestrator *)

Section Orchestrator.

Variable self : BaseCrawler.
Variable url : str.

Lemma resolve_keeps_promise (r v : CrawlResult) (st : CrawlState) :
  promise st = Some v -> promise (resolve r st) = Some v.
Proof. intros H. unfold resolve. simpl. rewrite H. reflexivity. Qed.

Lemma step_keeps_promise (st : CrawlState) (ev : Event) (v : CrawlResult) :
  promise st = Some v -> promise (step self url st ev) = Some v.
Proof.
  intros H. destruct ev as [now page request_url | now request_url message | now];
    simpl.
  - unfold requestHandler. destruct (handle self page request_url);
      apply resolve_keeps_promise; exact H.
  - unfold failedRequestHandler. destruct (resolved st); [exact H|].
    apply resolve_keeps_promise. exact H.
  - unfold run_finally. destruct (resolved st); [exact H|].
    apply resolve_keeps_promise. exact H.
Qed.

Lemma fold_step_keeps_promise (trace : list Event) :
  forall st v, promise st = Some v ->
               promise (fold_left (step self url) trace st) = Some v.
Proof.
  induction trace as [|ev trace IH]; intros st v H; simpl; [exact H|].
  apply IH, step_keeps_promise, H.
Qed.

(** Whatever callback comes first fulfils the promise. *)
Lemma first_step_resolves (ev : Event) :
  exists r, promise (step self url initial ev) = Some r
            /\ resolve_calls (step self url initial ev) = [r]
            /\ resolved (step self url initial ev) = true.
Proof.
  destruct ev as [now page request_url | now request_url message | now]; simpl.
  - unfold requestHandler. destruct (handle self page request_url);
      eexists; repeat split.
  - eexists; repeat split.
  - eexists; repeat split.
Qed.

Lemma resolve_calls_grow (trace : list Event) :
  forall st, exists more,
    resolve_calls (fold_left (step self url) trace st) = resolve_calls st ++ more.
Proof.
  induction trace as [|ev trace IH]; intros st; simpl.
  - exists []. rewrite app_nil_r. reflexivity.
  - destruct (IH (step self url st ev)) as [more Hmore]. rewrite Hmore.
    assert (Hstep : exists one, resolve_calls (step self url st ev)
                                = resolve_calls st ++ one).
    { destruct ev as [now page request_url | now request_url message | now]; simpl.
      - unfold requestHandler. destruct (handle self page request_url);
          eexists; reflexivity.
      - unfold failedRequestHandler. destruct (resolved st).
        + exists []. rewrite app_nil_r. reflexivity.
        + eexists; reflexivity.
      - unfold run_finally. destruct (resolved st).
        + exists []. rewrite app_nil_r. reflexivity.
        + eexists; reflexivity. }
    destruct Hstep as [one Hone]. rewrite Hone, <- app_assoc.
    eexists. reflexivity.
Qed.

Lemma run_cons (ev : Event) (rest : list Event) :
  promise (run self url (ev :: rest)) = first_result self url ev
  /\ hd_error (resolve_calls (run self url (ev :: rest))) = first_result self url ev.
Proof.
  unfold run, first_result. simpl.
  destruct (first_step_resolves ev) as (r & Hp & Hc & _).
  split.
  - rewrite Hp. apply fold_step_keeps_promise. exact Hp.
  - destruct (resolve_calls_grow rest (step self url initial ev)) as [more Hmore].
    rewrite Hmore, Hc, Hp. reflexivity.
Qed.

Lemma settled_not_nil (trace : list Event) :
  existsb is_RunSettled trace = true -> exists ev rest, trace = ev :: rest.
Proof. destruct trace as [|ev rest]; [discriminate | intros _; eauto]. Qed.

End Orchestrator.

(** C2: a result of [crawl] with [success = false] has its [error] set, an
    empty title and content and empty media lists, and its [crawledAt] is
    the reading of the clock when the resolving callback was made; the
    callback is a request handler that caught an error, the failed-request
    handler, or the end of the run without a result. *)
Theorem failed_result_shape
        (self : BaseCrawler) (url : str) (crawler : PlaywrightCrawler)
        (options : CrawlOptions) (r : CrawlResult) :
  crawl self url crawler options = Some r ->
  success r = false ->
  (exists message, error r = Some message)
  /\ title r = [] /\ content r = [] /\ images r = [] /\ videos r = []
  /\ exists ev rest,
      crawler (config self options) url = ev :: rest
      /\ crawledAt r = event_time ev
      /\ match ev with
         | RequestHandler now page request_url =>
             exists e, handle self page request_url = Threw e
                       /\ r = failure self request_url now (caught_message e)
         | FailedRequestHandler now request_url message =>
             r = failure self request_url now message
         | RunSettled now =>
             r = failure self url now (lit "Crawler finished without result")
         end.
Proof.
  unfold crawl. intros Hr Hfail.
  destruct (crawler (config self options) url) as [|ev rest] eqn:Htrace;
    [discriminate Hr|].
  rewrite (proj1 (run_cons self url ev rest)) in Hr. unfold first_result in Hr.
  destruct ev as [now page request_url | now request_url message | now];
    simpl in Hr.
  - unfold requestHandler in Hr.
    destruct (handle self page request_url) as [extracted|e] eqn:Hh;
      simpl in Hr; injection Hr as <-; [discriminate Hfail|].
    split; [eexists; reflexivity|]. do 4 (split; [reflexivity|]).
    exists (RequestHandler now page request_url), rest.
    do 2 (split; [reflexivity|]).
    exists e. split; [exact Hh | reflexivity].
  - injection Hr as <-.
    split; [eexists; reflexivity|]. do 4 (split; [reflexivity|]).
    exists (FailedRequestHandler now request_url message), rest.
    do 2 (split; [reflexivity|]). reflexivity.
  - injection Hr as <-.
    split; [eexists; reflexivity|]. do 4 (split; [reflexivity|]).
    exists (RunSettled now), rest.
    do 2 (split; [reflexivity|]). reflexivity.
Qed.

Lemma failed_result_shape_witness :
  crawl (Generic.GenericCrawler no_matches) (lit "https://blog.example/")
        (late_handler blog_page) default_options = Some timed_out_result
  /\ success timed_out_result = false
  /\ (exists message, error timed_out_result = Some message)
  /\ crawledAt timed_out_result = 5000%N.
Proof.
  split; [reflexivity|]. split; [reflexivity|].
  destruct (failed_result_shape (Generic.GenericCrawler no_matches)
              (lit "https://blog.example/") (late_handler blog_page)
              default_options timed_out_result eq_refl eq_refl)
    as (Herr & _ & _ & _ & _ & _).
  split; [exact Herr | reflexivity].
Defined.

(** C9: a successful result need not hold any content.  On the login wall
    of Xiaohongshu the strategy returns all fields empty, and when the
    request handler is the first callback [crawl] resolves with
    [success = true], an empty title and content, empty media lists and no
    error. *)
Theorem login_wall_is_a_success
        (rx : RegExpEngine) (url : str) (crawler : PlaywrightCrawler)
        (options : CrawlOptions) (now : N) (page : Page) (request_url : str)
        (rest : list Event) (pageTitle : str) :
  crawler (config (Xiaohongshu.XiaohongshuCrawler rx) options) url
  = RequestHandler now page request_url :: rest ->
  waitForLoadState page = Returned tt ->
  page_title page = Returned pageTitle ->
  includes Xiaohongshu.LOGIN pageTitle = true ->
  includes Xiaohongshu.TITLE_SUFFIX pageTitle = false ->
  crawl (Xiaohongshu.XiaohongshuCrawler rx) url crawler options
  = Some {| success := true; platform := xiaohongshu; Types.url := request_url;
            title := []; author := None; content := [];
            images := []; videos := []; publishedAt := None;
            crawledAt := now; error := None |}.
Proof.
  intros Htrace Hload Htitle Hlogin Hsuffix.
  unfold crawl. rewrite Htrace.
  rewrite (proj1 (run_cons _ url _ rest)). unfold first_result. simpl.
  unfold requestHandler, handle. rewrite Hload. simpl.
  unfold Xiaohongshu.extract, Xiaohongshu.extract_body.
  rewrite Htitle. simpl. rewrite Hlogin, Hsuffix. reflexivity.
Qed.

Lemma login_wall_is_a_success_witness :
  crawl (Xiaohongshu.XiaohongshuCrawler no_matches) note_url (loads login_wall)
        default_options
  = Some {| success := true; platform := xiaohongshu; Types.url := note_url;
            title := []; author := None; content := [];
            images := []; videos := []; publishedAt := None;
            crawledAt := 1000; error := None |}.
Proof.
  exact (login_wall_is_a_success no_matches note_url (loads login_wall)
           default_options 1000 login_wall note_url [RunSettled 1001]
           Xiaohongshu.LOGIN eq_refl eq_refl eq_refl eq_refl eq_refl).
Defined.

(** C1, as stated, fails in its second half: the request handler does not
    consult the flag.  When it finishes after the failed-request handler has
    resolved, with the flag set, it calls [resolve] once more. *)
Lemma requestHandler_ignores_the_flag :
  ~ (forall self url trace ev,
        resolved (run self url trace) = true ->
        resolve_calls (run self url (trace ++ [ev]))
        = resolve_calls (run self url trace)).
Proof.
  intros H.
  specialize (H (Generic.GenericCrawler no_matches) (lit "https://blog.example/")
                [FailedRequestHandler 5000 (lit "https://blog.example/")
                                      (lit "Navigation timed out")]
                (RequestHandler 6000 blog_page (lit "https://blog.example/"))
                eq_refl).
  apply (f_equal (@List.length CrawlResult)) in H.
  vm_compute in H. discriminate H.
Qed.

(** C1, amended: when the run of the engine settles, [crawl] resolves to
    exactly one result, the one passed to the first call of [resolve]; at
    every moment of the run the promise is pending or holds that result.
    The failed-request handler and the end of the run consult the flag and
    do nothing when it is set.  The request handler sets the flag and calls
    [resolve] without consulting it, and such a call leaves a promise that
    is already fulfilled as it is. *)
Theorem crawl_resolves_once
        (self : BaseCrawler) (url : str) (crawler : PlaywrightCrawler)
        (options : CrawlOptions) :
  existsb is_RunSettled (crawler (config self options) url) = true ->
  exists r,
    crawl self url crawler options = Some r
    /\ hd_error (resolve_calls (run self url (crawler (config self options) url)))
       = Some r
    /\ (forall n,
           promise (run self url (firstn n (crawler (config self options) url)))
           = None
           \/ promise (run self url (firstn n (crawler (config self options) url)))
              = Some r)
    /\ (forall st now request_url message,
           failedRequestHandler self now request_url message (set_resolved st)
           = set_resolved st
           /\ run_finally self url now (set_resolved st) = set_resolved st)
    /\ (forall st now page request_url,
           resolved (requestHandler self now page request_url st) = true
           /\ List.length (resolve_calls (requestHandler self now page request_url st))
              = S (List.length (resolve_calls st))
           /\ match promise st with
              | Some v => promise (requestHandler self now page request_url st) = Some v
              | None => promise (requestHandler self now page request_url st) <> None
              end).
Proof.
  intros Hsettled. unfold crawl.
  destruct (settled_not_nil _ Hsettled) as (ev & rest & ->).
  destruct (run_cons self url ev rest) as [Hp Hc].
  destruct (first_step_resolves self url ev) as (r & Hr & _).
  fold (first_result self url ev) in Hr.
  exists r. rewrite Hp, Hc, Hr.
  split; [reflexivity|]. split; [reflexivity|]. split; [|split].
  - intros [|n]; [left; reflexivity | right].
    change (firstn (S n) (ev :: rest)) with (ev :: firstn n rest).
    rewrite (proj1 (run_cons self url ev (firstn n rest))). exact Hr.
  - intros st now request_url message. split; reflexivity.
  - intros st now page request_url. unfold requestHandler.
    destruct (handle self page request_url); simpl;
      (split; [reflexivity|]); (split; [rewrite length_app; simpl; lia|]);
      destruct (promise st); congruence.
Qed.

Lemma crawl_resolves_once_witness :
  existsb is_RunSettled
          (late_handler blog_page
             (config (Generic.GenericCrawler no_matches) default_options)
             (lit "https://blog.example/")) = true
  /\ exists r,
      crawl (Generic.GenericCrawler no_matches) (lit "https://blog.example/")
            (late_handler blog_page) default_options = Some r
      /\ success r = false.
Proof.
  split; [reflexivity|].
  destruct (crawl_resolves_once (Generic.GenericCrawler no_matches)
              (lit "https://blog.example/") (late_handler blog_page)
              default_options eq_refl) as (r & Hr & _).
  exists r. split; [exact Hr|].
  vm_compute in Hr. injection Hr as <-. reflexivity.
Defined.

(** * Further properties of the code *)

(** ** utils.ts *)

Section MoreCleanText.

Lemma replace_ws_runs_from_length (s : str) :
  forall in_run, List.length (replace_ws_runs_from in_run s) <= List.length s.
Proof.
  induction s as [|c s IH]; intros in_run; simpl; [lia|].
  pose proof (IH true). pose proof (IH false).
  destruct (is_ws c); [destruct in_run|]; simpl; lia.
Qed.

Lemma trimStart_length (s : str) : List.length (trimStart s) <= List.length s.
Proof.
  induction s as [|c s IH]; simpl; [lia|].
  destruct (is_ws c); simpl; lia.
Qed.

Lemma trimEnd_length (s : str) : List.length (trimEnd s) <= List.length s.
Proof.
  induction s as [|c s IH]; simpl; [lia|].
  destruct (trimEnd s); [destruct (is_ws c)|]; simpl in *; lia.
Qed.

Lemma ink_nil_all_ws (s : str) : ink s = [] <-> forallb is_ws s = true.
Proof.
  induction s as [|c s IH]; simpl; [tauto|].
  destruct (is_ws c); simpl; [exact IH|].
  split; discriminate.
Qed.

End MoreCleanText.

Lemma cleanText_shorter (s : str) : List.length (cleanText s) <= List.length s.
Proof.
  rewrite cleanText_unfold. unfold trim, replace_ws_runs.
  pose proof (trimEnd_length (trimStart (replace_ws_runs_from false s))).
  pose proof (trimStart_length (replace_ws_runs_from false s)).
  pose proof (replace_ws_runs_from_length s false). lia.
Qed.

(** X1: the text normalizer never makes a text longer, and it keeps the
    units that are not whitespace, all of them and in their order. *)
Theorem cleanText_length (s : str) :
  List.length (cleanText s) <= List.length s
  /\ ink (cleanText s) = ink s.
Proof. split; [apply cleanText_shorter | apply cleanText_ink]. Qed.

(** X2: the text normalizer gives the empty string exactly on the texts
    that are whitespace throughout, the empty one among them. *)
Theorem cleanText_empty_iff (s : str) :
  cleanText s = [] <-> forallb is_ws s = true.
Proof.
  rewrite <- ink_nil_all_ws, <- (cleanText_ink s). split.
  - intros ->. reflexivity.
  - intros Hink. pose proof (cleanText_normalized s) as Hn.
    unfold normalized in Hn.
    apply andb_true_iff in Hn as [Hn _]. apply andb_true_iff in Hn as [_ Hb].
    destruct (cleanText s) as [|c t]; [reflexivity|].
    simpl in Hb, Hink. apply negb_true_iff in Hb. rewrite Hb in Hink.
    discriminate Hink.
Qed.

(** X3: on a well-formed URL the classifier answers [unknown] exactly when
    none of the six signatures occurs in the lowercased host name. *)
Theorem detectPlatform_unknown_iff
        (URL_hostname : str -> option str) (url hostname : str) :
  URL_hostname url = Some hostname ->
  (detectPlatform URL_hostname url = Some unknown
   <-> forallb (fun sg => negb (includes (fst sg) (toLowerCase hostname))) signatures
       = true).
Proof.
  intros Hurl. unfold detectPlatform. rewrite Hurl, classify_host_first_match.
  generalize (toLowerCase hostname). intros host.
  unfold signatures, first_match, forallb, fst.
  destruct (includes (lit "zhihu.com") host);
    destruct (includes (lit "xiaohongshu.com") host);
    destruct (includes (lit "xhslink.com") host);
    destruct (includes (lit "twitter.com") host);
    destruct (includes (lit "x.com") host);
    destruct (includes (lit "weixin.qq.com") host);
    simpl; split; intros H; try reflexivity; try discriminate H;
    inversion H.
Qed.

Lemma detectPlatform_unknown_iff_witness :
  https_hostname (lit "https://example.org/") = Some (lit "example.org")
  /\ detectPlatform https_hostname (lit "https://example.org/") = Some unknown.
Proof.
  split; [reflexivity|].
  apply (proj2 (detectPlatform_unknown_iff https_hostname
                  (lit "https://example.org/") (lit "example.org") eq_refl)).
  reflexivity.
Defined.

Section MoreCookies.

Lemma or_else_idem (a : option str) (b : str) :
  or_else (Some (or_else a b)) b = or_else a b.
Proof. destruct a as [[|c s]|]; simpl; destruct b; reflexivity. Qed.

Lemma split_no_separator (sep : N) (s : str) :
  forallb (fun c => negb (c =? sep)%N) s = true -> split sep s = (s, []).
Proof.
  induction s as [|c s IH]; simpl; [reflexivity|].
  intros H. apply andb_true_iff in H as [Hc Hs].
  apply negb_true_iff in Hc. rewrite Hc, (IH Hs). reflexivity.
Qed.

Lemma split_array_app (sep : N) (a b : str) :
  forallb (fun c => negb (c =? sep)%N) a = true ->
  split_array sep (a ++ sep :: b) = a :: split_array sep b.
Proof.
  unfold split_array. induction a as [|c a IH]; simpl.
  - intros _. rewrite N.eqb_refl. destruct (split sep b). reflexivity.
  - intros H. apply andb_true_iff in H as [Hc Ha].
    apply negb_true_iff in Hc. rewrite Hc.
    specialize (IH Ha). destruct (split sep (a ++ sep :: b)) as [h t].
    inversion IH. reflexivity.
Qed.

Lemma cut_at_first_app (sep : N) (a b : str) :
  forallb (fun c => negb (c =? sep)%N) a = true ->
  cut_at_first sep (a ++ sep :: b) = (a, b).
Proof.
  induction a as [|c a IH]; simpl.
  - intros _. rewrite N.eqb_refl. reflexivity.
  - intros H. apply andb_true_iff in H as [Hc Ha].
    apply negb_true_iff in Hc. rewrite Hc, (IH Ha). reflexivity.
Qed.

Lemma ends_ws_app (a b : str) : truthy b = true -> ends_ws (a ++ b) = ends_ws b.
Proof.
  intros Hb. induction a as [|c a IH]; [reflexivity|].
  simpl. destruct (a ++ b) eqn:Hab; [|exact IH].
  apply app_eq_nil in Hab as [_ ->]. discriminate Hb.
Qed.

Lemma forallb_weaken (seps : list N) (sep : N) (s : str) :
  In sep seps ->
  forallb (fun c => negb (existsb (N.eqb c) seps)) s = true ->
  forallb (fun c => negb (c =? sep)%N) s = true.
Proof.
  intros Hin H. rewrite forallb_forall in *. intros c Hc.
  specialize (H c Hc). apply negb_true_iff in H. apply negb_true_iff.
  destruct (c =? sep)%N eqn:Heq; [|reflexivity].
  apply N.eqb_eq in Heq. subst c.
  assert (existsb (N.eqb sep) seps = true).
  { apply existsb_exists. exists sep. split; [exact Hin | apply N.eqb_refl]. }
  congruence.
Qed.

(** A pair in wire form, with or without the space that follows a
    semicolon, is read back as its name and value. *)
Lemma cookie_of_pair_wire (fallback : str) (p : str * str) (space : bool) :
  wire_pair p = true ->
  cookie_of_pair fallback ((if space then [SPACE] else []) ++ fst p ++ EQUALS :: snd p)
  = cookie_entry fallback p
  /\ forallb (fun c => negb (c =? SEMICOLON)%N) (fst p ++ EQUALS :: snd p) = true.
Proof.
  destruct p as [n v]. unfold wire_pair, wire_safe. simpl fst. simpl snd.
  intros H. apply andb_true_iff in H as [Hn Hv].
  apply andb_true_iff in Hn as [Hn Hnsep]. apply andb_true_iff in Hn as [Hn Hne].
  apply andb_true_iff in Hn as [Hnt Hns].
  apply andb_true_iff in Hv as [Hv Hvsep]. apply andb_true_iff in Hv as [Hv Hve].
  apply andb_true_iff in Hv as [Hvt Hvs].
  apply negb_true_iff in Hne, Hns, Hve, Hvs.
  split.
  - rewrite cookie_of_pair_spec. unfold spec_cookie_of_pair, cookie_entry.
    assert (Htrim : trim ((if space then [SPACE] else []) ++ n ++ EQUALS :: v)
                    = n ++ EQUALS :: v).
    { unfold trim.
      assert (Hstart : trimStart ((if space then [SPACE] else []) ++ n ++ EQUALS :: v)
                       = n ++ EQUALS :: v).
      { destruct space; simpl; [|]; apply trimStart_fixed;
          destruct n; [discriminate Hnt | exact Hns | discriminate Hnt | exact Hns]. }
      rewrite Hstart. apply trimEnd_fixed.
      rewrite (ends_ws_app n (EQUALS :: v) eq_refl).
      destruct v; [discriminate Hvt | exact Hve]. }
    rewrite Htrim.
    rewrite (cut_at_first_app EQUALS n v)
      by (apply (forallb_weaken [SEMICOLON; EQUALS]); [right; left; reflexivity | exact Hnsep]).
    unfold trim. simpl fst. simpl snd.
    rewrite (trimStart_fixed n Hns), (trimEnd_fixed n Hne),
      (trimStart_fixed v Hvs), (trimEnd_fixed v Hve). reflexivity.
  - rewrite forallb_app. apply andb_true_iff. split.
    + apply (forallb_weaken [SEMICOLON; EQUALS]); [left; reflexivity | exact Hnsep].
    + simpl. apply (forallb_weaken [SEMICOLON]); [left; reflexivity | exact Hvsep].
Qed.

Lemma map_cookie_header (fallback : str) (pairs : list (str * str)) :
  forallb wire_pair pairs = true ->
  pairs <> [] ->
  forall space : bool,
    List.map (cookie_of_pair fallback)
             (split_array SEMICOLON
                          ((if space then [SPACE] else []) ++ cookie_header pairs))
    = List.map (cookie_entry fallback) pairs.
Proof.
  induction pairs as [|p rest IH]; intros Hwire Hne space; [congruence|].
  simpl in Hwire. apply andb_true_iff in Hwire as [Hp Hrest].
  destruct (cookie_of_pair_wire fallback p space Hp) as [Hread Hsemi].
  assert (Hpre : forallb (fun c => negb (c =? SEMICOLON)%N)
                         ((if space then [SPACE] else []) ++ fst p ++ EQUALS :: snd p)
                 = true).
  { rewrite forallb_app, Hsemi. destruct space; reflexivity. }
  destruct p as [n v]. destruct rest as [|q rest'].
  - simpl cookie_header. unfold split_array.
    simpl fst in *. simpl snd in *.
    rewrite (split_no_separator SEMICOLON _ Hpre). simpl. rewrite Hread. reflexivity.
  - change (cookie_header ((n, v) :: q :: rest'))
      with ((n ++ EQUALS :: v) ++ SEMICOLON :: ([SPACE] ++ cookie_header (q :: rest'))).
    simpl fst in *. simpl snd in *.
    set (tail := [SPACE] ++ cookie_header (q :: rest')).
    replace ((if space then [SPACE] else []) ++ (n ++ EQUALS :: v) ++ SEMICOLON :: tail)
      with (((if space then [SPACE] else []) ++ n ++ EQUALS :: v) ++ SEMICOLON :: tail)
      by (rewrite <- app_assoc; reflexivity).
    rewrite (split_array_app SEMICOLON _ tail Hpre).
    rewrite map_cons, Hread.
    change (List.map (cookie_entry fallback) ((n, v) :: q :: rest'))
      with (cookie_entry fallback (n, v) :: List.map (cookie_entry fallback) (q :: rest')).
    f_equal. apply (IH Hrest ltac:(discriminate) true).
Qed.

End MoreCookies.

(** X4: normalizing cookies is idempotent: the output, given back as a list
    with the same fallback domain, is returned as it is. *)
Theorem parseCookies_idempotent (cookies : Cookies) (fallback : str) :
  parseCookies (CookiesArray (parseCookies cookies fallback)) fallback
  = parseCookies cookies fallback.
Proof.
  assert (Hfix : forall l : list CookieParam,
             Forall (fun c => exists d, domain c = Some d
                                        /\ or_else (Some d) fallback = d) l ->
             parseCookies (CookiesArray l) fallback = l).
  { intros l Hl. simpl. induction Hl as [|c l [d [Hd Hor]] _ IH]; [reflexivity|].
    simpl. rewrite IH. f_equal. destruct c as [n v dom pth].
    unfold domain in Hd. subst dom. unfold name, value, domain, path.
    rewrite Hor. reflexivity. }
  apply Hfix. destruct cookies as [|l|s].
  - constructor.
  - simpl. apply Forall_forall. intros c Hc.
    apply in_map_iff in Hc as [c0 [<- _]]. simpl.
    eexists. split; [reflexivity | apply or_else_idem].
  - rewrite parseCookies_string_spec. unfold spec_parse_cookie_string.
    apply Forall_forall. intros c Hc.
    apply filter_In in Hc as [Hc _].
    apply in_map_iff in Hc as [pair [<- _]].
    unfold spec_cookie_of_pair. destruct (cut_at_first EQUALS (trim pair)).
    simpl. exists fallback. split; [reflexivity|].
    destruct fallback; reflexivity.
Qed.

(** X5: a list of names and values written in the wire format
    [name1=value1; name2=value2] is read back entry for entry, each with the
    fallback domain, provided every name and value is non-empty, has no
    whitespace at its ends and holds no semicolon, and no name holds an
    equals sign. *)
Theorem parseCookies_reads_cookie_header (pairs : list (str * str)) (fallback : str) :
  forallb wire_pair pairs = true ->
  parseCookies (CookiesString (cookie_header pairs)) fallback
  = List.map (cookie_entry fallback) pairs.
Proof.
  intros Hwire. destruct pairs as [|p rest]; [reflexivity|].
  rewrite parseCookies_string_spec. unfold spec_parse_cookie_string.
  rewrite <- (map_ext (cookie_of_pair fallback) (spec_cookie_of_pair fallback)
                      (cookie_of_pair_spec fallback)).
  pose proof (map_cookie_header fallback (p :: rest) Hwire ltac:(discriminate) false)
    as Hm.
  change (List.map (cookie_of_pair fallback)
                   (split_array SEMICOLON (cookie_header (p :: rest)))
          = List.map (cookie_entry fallback) (p :: rest)) in Hm.
  rewrite Hm.
  apply forallb_filter_id.
  rewrite forallb_forall. intros c Hc.
  apply in_map_iff in Hc as [q [<- Hq]].
  rewrite forallb_forall in Hwire. specialize (Hwire q Hq).
  unfold wire_pair, wire_safe in Hwire. unfold cookie_entry. simpl.
  apply andb_true_iff in Hwire as [Hn Hv].
  repeat (apply andb_true_iff in Hn as [Hn _]).
  repeat (apply andb_true_iff in Hv as [Hv _]).
  rewrite Hn, Hv. reflexivity.
Qed.

Lemma parseCookies_reads_cookie_header_witness :
  forallb wire_pair [(lit "sid", lit "a=b"); (lit "lang", lit "zh CN")] = true
  /\ parseCookies (CookiesString (lit "sid=a=b; lang=zh CN")) (lit ".zhihu.com")
     = [ {| name := lit "sid"; value := lit "a=b";
            domain := Some (lit ".zhihu.com"); path := None |};
         {| name := lit "lang"; value := lit "zh CN";
            domain := Some (lit ".zhihu.com"); path := None |} ].
Proof.
  split; [reflexivity|].
  exact (parseCookies_reads_cookie_header
           [(lit "sid", lit "a=b"); (lit "lang", lit "zh CN")] (lit ".zhihu.com")
           eq_refl).
Defined.

(** ** crawlers/base.ts *)

(** X6: the cookies that [crawl] hands to the browser are the normalized
    cookies one for one, with name, value and domain as the normalizer left
    them (the domain default of [setCookies] changes nothing any more), and
    each with a non-empty path, [/] where none was given. *)
Theorem hookCookies_complete (self : BaseCrawler) (options : CrawlOptions) :
  Forall2 (fun c c' => name c' = name c /\ value c' = value c
                       /\ domain c' = domain c
                       /\ path c' = Some (or_else (path c) (lit "/")))
          (parseCookies (cookies options) (getDomain self))
          (hookCookies (config self options))
  /\ Forall (fun c' => exists d p, domain c' = Some d /\ path c' = Some p
                                   /\ truthy p = true)
            (hookCookies (config self options)).
Proof.
  unfold config, hookCookies, playwrightCookies.
  assert (Hdom : Forall (fun c => exists d, domain c = Some d
                                            /\ or_else (Some d) (getDomain self) = d)
                        (parseCookies (cookies options) (getDomain self))).
  { destruct (cookies options) as [|l|s].
    - constructor.
    - simpl. apply Forall_forall. intros c Hc.
      apply in_map_iff in Hc as [c0 [<- _]]. simpl.
      eexists. split; [reflexivity | apply or_else_idem].
    - rewrite parseCookies_string_spec. unfold spec_parse_cookie_string.
      apply Forall_forall. intros c Hc.
      apply filter_In in Hc as [Hc _].
      apply in_map_iff in Hc as [pair [<- _]].
      unfold spec_cookie_of_pair. destruct (cut_at_first EQUALS (trim pair)).
      simpl. exists (getDomain self). split; [reflexivity|].
      destruct (getDomain self); reflexivity. }
  induction Hdom as [|c l [d [Hd Hor]] _ [IH1 IH2]]; simpl.
  - split; constructor.
  - split; constructor; try assumption.
    + simpl. rewrite Hd, Hor. repeat split.
    + simpl. rewrite Hd. exists (or_else (Some d) (getDomain self)).
      exists (or_else (path c) (lit "/")). repeat split.
      destruct (path c) as [[|x p]|]; reflexivity.
Qed.

Section MoreOrchestrator.

Variable self : BaseCrawler.
Variable url : str.

Lemma step_sets_flag (st : CrawlState) (ev : Event) :
  resolved st = true -> resolved (step self url st ev) = true.
Proof.
  intros H. destruct ev as [now page request_url | now request_url message | now];
    simpl.
  - unfold requestHandler. destruct (handle self page request_url); reflexivity.
  - unfold failedRequestHandler. rewrite H. exact H.
  - unfold run_finally. rewrite H. exact H.
Qed.

Lemma step_calls_when_flag_set (st : CrawlState) (ev : Event) :
  resolved st = true ->
  List.length (resolve_calls (step self url st ev))
  = List.length (resolve_calls st) + (if is_RequestHandler ev then 1 else 0).
Proof.
  intros H. destruct ev as [now page request_url | now request_url message | now];
    simpl.
  - unfold requestHandler. destruct (handle self page request_url); simpl;
      rewrite length_app; reflexivity.
  - unfold failedRequestHandler. rewrite H. lia.
  - unfold run_finally. rewrite H. lia.
Qed.

Lemma fold_calls_when_flag_set (trace : list Event) :
  forall st,
    resolved st = true ->
    List.length (resolve_calls (fold_left (step self url) trace st))
    = List.length (resolve_calls st) + handler_count trace.
Proof.
  unfold handler_count.
  induction trace as [|ev trace IH]; intros st H; simpl; [lia|].
  rewrite (IH _ (step_sets_flag st ev H)), (step_calls_when_flag_set st ev H).
  destruct (is_RequestHandler ev); simpl; lia.
Qed.

Lemma fold_sets_flag (trace : list Event) :
  forall st, resolved st = true ->
             resolved (fold_left (step self url) trace st) = true.
Proof.
  induction trace as [|ev trace IH]; intros st H; simpl; [exact H|].
  apply IH, step_sets_flag, H.
Qed.

Lemma result_platform (trace : list Event) (r : CrawlResult) :
  promise (run self url trace) = Some r -> platform r = crawler_platform self.
Proof.
  destruct trace as [|ev rest]; [discriminate|].
  rewrite (proj1 (run_cons self url ev rest)). unfold first_result.
  destruct ev as [now page request_url | now request_url message | now]; simpl.
  - unfold requestHandler. destruct (handle self page request_url); simpl;
      intros H; injection H as <-; reflexivity.
  - intros H; injection H as <-; reflexivity.
  - intros H; injection H as <-; reflexivity.
Qed.

End MoreOrchestrator.

Lemma crawl_pending_origin
      (self : BaseCrawler) (url : str) (crawler : PlaywrightCrawler)
      (options : CrawlOptions) :
  crawl self url crawler options = None <-> crawler (config self options) url = [].
Proof.
  unfold crawl. destruct (crawler (config self options) url) as [|ev rest].
  - split; reflexivity.
  - destruct (first_step_resolves self url ev) as (r & Hp & _).
    rewrite (proj1 (run_cons self url ev rest)). unfold first_result. rewrite Hp.
    split; discriminate.
Qed.

(** X7: the promise of [crawl] stays pending exactly when the engine makes
    no callback at all, and after every run the flag [resolved] tells
    whether the promise is fulfilled. *)
Theorem crawl_pending_iff
        (self : BaseCrawler) (url : str) (crawler : PlaywrightCrawler)
        (options : CrawlOptions) :
  (crawl self url crawler options = None <-> crawler (config self options) url = [])
  /\ resolved (run self url (crawler (config self options) url))
     = match crawl self url crawler options with
       | Some _ => true
       | None => false
       end.
Proof.
  unfold crawl. destruct (crawler (config self options) url) as [|ev rest].
  - split; [split; reflexivity | reflexivity].
  - destruct (first_step_resolves self url ev) as (r & Hp & _ & Hf).
    rewrite (proj1 (run_cons self url ev rest)). unfold first_result. rewrite Hp.
    split; [split; discriminate|].
    unfold run. simpl. apply fold_sets_flag. exact Hf.
Qed.

(** X8: in a run, [resolve] is called once by the first callback and once
    more by every later request handler, and by nothing else: the
    failed-request handler and the end of the run call it only when they come
    first. *)
Theorem resolve_call_count (self : BaseCrawler) (url : str) (trace : list Event) :
  List.length (resolve_calls (run self url trace))
  = match trace with
    | [] => 0
    | _ :: rest => 1 + handler_count rest
    end.
Proof.
  destruct trace as [|ev rest]; [reflexivity|].
  unfold run. simpl.
  destruct (first_step_resolves self url ev) as (r & _ & Hc & Hf).
  rewrite (fold_calls_when_flag_set self url rest _ Hf), Hc. reflexivity.
Qed.

(** X9: a result of [crawl] with [success = true] comes from a request
    handler that was the first callback and whose strategy returned: it has
    no error, the URL of the request, the time of that callback, and the
    fields of the extraction, with an empty string or list for a field the
    strategy left out. *)
Theorem successful_result_shape
        (self : BaseCrawler) (url : str) (crawler : PlaywrightCrawler)
        (options : CrawlOptions) (r : CrawlResult) :
  crawl self url crawler options = Some r ->
  success r = true ->
  error r = None
  /\ exists now page request_url rest extracted,
      crawler (config self options) url = RequestHandler now page request_url :: rest
      /\ waitForLoadState page = Returned tt
      /\ extract self page request_url = Returned extracted
      /\ Types.url r = request_url
      /\ crawledAt r = now
      /\ title r = or_else (p_title extracted) []
      /\ content r = or_else (p_content extracted) []
      /\ images r = images_of extracted
      /\ videos r = videos_of extracted
      /\ author r = p_author extracted
      /\ publishedAt r = p_publishedAt extracted.
Proof.
  unfold crawl. intros Hr Hok.
  destruct (crawler (config self options) url) as [|ev rest]; [discriminate Hr|].
  rewrite (proj1 (run_cons self url ev rest)) in Hr. unfold first_result in Hr.
  destruct ev as [now page request_url | now request_url message | now];
    simpl in Hr.
  - unfold requestHandler in Hr.
    destruct (handle self page request_url) as [extracted|e] eqn:Hh;
      simpl in Hr; injection Hr as <-; [|discriminate Hok].
    split; [reflexivity|].
    exists now, page, request_url, rest, extracted.
    unfold handle in Hh. destruct (waitForLoadState page) as [[]|e]; [|discriminate Hh].
    simpl in Hh. repeat split; try reflexivity. exact Hh.
  - injection Hr as <-. discriminate Hok.
  - injection Hr as <-. discriminate Hok.
Qed.

Lemma successful_result_shape_witness :
  crawl (Generic.GenericCrawler no_matches) (lit "https://blog.example/")
        (loads blog_page) default_options
  = Some blog_result
  /\ success blog_result = true
  /\ error blog_result = None.
Proof.
  split; [reflexivity|]. split; [reflexivity|].
  exact (proj1 (successful_result_shape (Generic.GenericCrawler no_matches)
                  (lit "https://blog.example/") (loads blog_page) default_options
                  blog_result eq_refl eq_refl)).
Defined.

(** X10: every result of [crawl] carries the platform of the strategy that
    made it, and the strategy the registry gives for a platform is of that
    platform; so a crawl through the registry is tagged with the platform it
    was asked for, on success and on every failure path. *)
Theorem registry_result_platform
        (rx : RegExpEngine) (p : Platform) (url : str) (crawler : PlaywrightCrawler)
        (options : CrawlOptions) (r : CrawlResult) :
  crawl (Registry.getCrawler rx p) url crawler options = Some r ->
  platform r = p.
Proof.
  unfold crawl. intros H. rewrite (result_platform _ url _ r H).
  destruct p; reflexivity.
Qed.

Lemma registry_result_platform_witness :
  crawl (Registry.getCrawler no_matches unknown) (lit "https://blog.example/")
        (late_handler blog_page) default_options
  = Some timed_out_result
  /\ platform timed_out_result = unknown.
Proof.
  split; [reflexivity|].
  exact (registry_result_platform no_matches unknown (lit "https://blog.example/")
           (late_handler blog_page) default_options timed_out_result eq_refl).
Defined.

(** ** The strategies *)

Section MoreStrategies.

Variable rx : RegExpEngine.

(** Where a result of [crawl] comes from: a failure path, with nothing in
    it, or an extraction that returned. *)
Lemma crawl_result_origin
      (self : BaseCrawler) (url : str) (crawler : PlaywrightCrawler)
      (options : CrawlOptions) (r : CrawlResult) :
  crawl self url crawler options = Some r ->
  (success r = false /\ title r = [] /\ content r = [] /\ images r = []
   /\ videos r = [] /\ author r = None)
  \/ (exists page request_url extracted,
         extract self page request_url = Returned extracted
         /\ success r = true
         /\ title r = or_else (p_title extracted) []
         /\ content r = or_else (p_content extracted) []
         /\ images r = images_of extracted
         /\ videos r = videos_of extracted
         /\ author r = p_author extracted).
Proof.
  unfold crawl. intros Hr.
  destruct (crawler (config self options) url) as [|ev rest]; [discriminate Hr|].
  rewrite (proj1 (run_cons self url ev rest)) in Hr. unfold first_result in Hr.
  destruct ev as [now page request_url | now request_url message | now];
    simpl in Hr.
  - unfold requestHandler in Hr.
    destruct (handle self page request_url) as [extracted|e] eqn:Hh;
      simpl in Hr; injection Hr as <-.
    + right. exists page, request_url, extracted.
      unfold handle in Hh. destruct (waitForLoadState page); [|discriminate Hh].
      simpl in Hh. repeat split; try reflexivity. exact Hh.
    + left. repeat split.
  - injection Hr as <-. left. repeat split.
  - injection Hr as <-. left. repeat split.
Qed.

Lemma extract_videos_capped (p : Platform) (page : Page) (url : str) (r : PartialResult) :
  extract (Registry.getCrawler rx p) page url = Returned r ->
  capped 10 (videos_of r).
Proof.
  destruct p; simpl; intros H.
  - unfold Zhihu.extract in H.
    destruct (includes (lit "/p/") url); [|destruct (includes (lit "/answer/") url)].
    + unfold Zhihu.extractArticle in H.
      destruct (Zhihu.title_or_page_title page _); [|discriminate H].
      apply Returned_inj in H. subst r. apply Zhihu_videos_capped.
    + unfold Zhihu.extractAnswer in H.
      destruct (Zhihu.title_or_page_title page _); [|discriminate H].
      apply Returned_inj in H. subst r. apply Zhihu_videos_capped.
    + unfold Zhihu.extractGeneric in H.
      destruct (page_title page); [|discriminate H].
      apply Returned_inj in H. subst r. apply Zhihu_videos_capped.
  - unfold Xiaohongshu.extract in H. apply Returned_inj in H. subst r.
    unfold Xiaohongshu.extract_body.
    destruct (page_title page) as [pageTitle|e]; simpl; [|apply capped_nil].
    destruct (includes Xiaohongshu.LOGIN pageTitle
              && negb (includes Xiaohongshu.TITLE_SUFFIX pageTitle)); simpl.
    + apply capped_nil.
    + apply Xiaohongshu_videos_capped.
  - unfold Twitter.extract in H.
    destruct (page_title page); [|discriminate H].
    apply Returned_inj in H. subst r. apply Twitter_videos_capped.
  - unfold Wechat.extract in H. apply Returned_inj in H. subst r.
    apply Wechat_videos_capped.
  - unfold Generic.extract in H.
    destruct (page_title page); [|discriminate H].
    apply Returned_inj in H. subst r. apply Generic_videos_capped.
Qed.

End MoreStrategies.

(** X11: whatever the platform, the page and the run of the engine, the
    result of a crawl through the registry holds at most 10 videos and no
    video URL twice. *)
Theorem crawl_videos_capped
        (rx : RegExpEngine) (p : Platform) (url : str) (crawler : PlaywrightCrawler)
        (options : CrawlOptions) (r : CrawlResult) :
  crawl (Registry.getCrawler rx p) url crawler options = Some r ->
  List.length (videos r) <= 10 /\ NoDup (videos r).
Proof.
  intros H.
  destruct (crawl_result_origin _ url crawler options r H)
    as [(_ & _ & _ & _ & Hv & _) | (page & req & ex & Hex & _ & _ & _ & _ & Hv & _)];
    rewrite Hv.
  - apply (capped_nil 10).
  - exact (extract_videos_capped rx p page req ex Hex).
Qed.

Lemma crawl_videos_capped_witness :
  exists r,
    crawl (Registry.getCrawler no_matches unknown) (lit "https://videos.example/")
          (loads video_gallery) default_options
    = Some r
    /\ List.length (videos r) = 10
    /\ List.length (videos r) <= 10 /\ NoDup (videos r).
Proof.
  eexists. split; [reflexivity|]. split; [reflexivity|].
  exact (crawl_videos_capped no_matches unknown (lit "https://videos.example/")
           (loads video_gallery) default_options _ eq_refl).
Defined.

Section MediaEntries.

Variable rx : RegExpEngine.

Lemma Forall_snoc (P : str -> Prop) (acc : list str) (x : str) :
  Forall P acc -> P x -> Forall P (acc ++ [x]).
Proof. intros Ha Hx. apply Forall_app. split; [exact Ha | constructor; [exact Hx | constructor]]. Qed.

Lemma Forall_push_new (P : str -> Prop) (acc : list str) (x : str) :
  P x -> Forall P acc -> Forall P (push_new acc x).
Proof.
  intros Hx Ha. unfold push_new. destruct (mem x acc); [exact Ha|].
  apply Forall_snoc; assumption.
Qed.

Lemma Forall_push_new_if (P : str -> Prop) (ok : str -> bool) (acc : list str) (x : str) :
  (ok x = true -> P x) -> Forall P acc -> Forall P (push_new_if ok acc x).
Proof.
  intros Hx Ha. unfold push_new_if. destruct (ok x); [|exact Ha].
  apply Forall_push_new; [apply Hx; reflexivity | exact Ha].
Qed.

Lemma Forall_push_truthy (acc : list str) (x : str) :
  Forall (fun v => truthy v = true) acc ->
  Forall (fun v => truthy v = true) (push_truthy acc x).
Proof.
  intros Ha. unfold push_truthy. destruct (truthy x) eqn:Hx; [|exact Ha].
  apply Forall_snoc; assumption.
Qed.

Lemma fold_left_Forall {A : Type} (P : str -> Prop)
      (f : list str -> A -> list str) (l : list A) :
  (forall acc x, Forall P acc -> Forall P (f acc x)) ->
  forall acc, Forall P acc -> Forall P (fold_left f l acc).
Proof.
  intros Hf. induction l as [|x l IH]; intros acc Hacc; simpl; [exact Hacc|].
  apply IH, Hf, Hacc.
Qed.

Lemma Forall_slice0 (P : str -> Prop) (n : nat) (l : list str) :
  Forall P l -> Forall P (slice0 n l).
Proof.
  intros H. apply Forall_forall. intros x Hx.
  apply In_slice0 in Hx. rewrite Forall_forall in H. exact (H x Hx).
Qed.

Lemma Forall_Set_spread (P : str -> Prop) (l : list str) :
  Forall P l -> Forall P (Set_spread l).
Proof.
  unfold Set_spread. intros H.
  assert (Hgen : forall acc, Forall P acc -> Forall P (fold_left push_new l acc)).
  { induction H as [|x l Hx _ IH]; intros acc Hacc; simpl; [exact Hacc|].
    apply IH, Forall_push_new; assumption. }
  apply Hgen. constructor.
Qed.

Lemma Forall_catch (P : str -> Prop) (o : Outcome (list str)) :
  (forall l, o = Returned l -> Forall P l) -> Forall P (catch o []).
Proof.
  intros H. destruct o as [l|e]; simpl; [apply H; reflexivity | constructor].
Qed.

Lemma Twitter_valid_truthy (v : str) : Twitter.isValidVideo v = true -> truthy v = true.
Proof. unfold Twitter.isValidVideo. destruct (truthy v); simpl; congruence. Qed.

Lemma Xiaohongshu_valid_truthy (v : str) :
  Xiaohongshu.isValidVideo v = true -> truthy v = true.
Proof. unfold Xiaohongshu.isValidVideo. destruct (truthy v); simpl; congruence. Qed.

Lemma video_filter_sound (p : Platform) (v : str) :
  video_filter p v = true ->
  truthy v = true
  /\ (startsWith (lit "blob:") v = false \/ (p <> twitter /\ p <> xiaohongshu)).
Proof.
  destruct p; unfold video_filter; intros H;
    try (split; [exact H | right; split; discriminate]).
  - split; [apply Xiaohongshu_valid_truthy, H | left].
    unfold Xiaohongshu.isValidVideo in H.
    destruct (startsWith (lit "blob:") v); [|reflexivity].
    rewrite orb_true_r in H. discriminate H.
  - split; [apply Twitter_valid_truthy, H | left].
    unfold Twitter.isValidVideo in H.
    destruct (startsWith (lit "blob:") v); [|reflexivity].
    rewrite orb_true_r in H. discriminate H.
Qed.

(** The loops that fill a media list put in only what passed the test. *)
Ltac keep_Forall :=
  repeat first
    [ assumption
    | apply Forall_nil
    | apply Forall_push_truthy
    | apply Forall_push_new_if; [intros ?Hok|]
    | apply fold_left_Forall; [intros ? ? ?|] ].

Ltac script_Forall :=
  let l := fresh "l" in
  let H := fresh "H" in
  apply Forall_catch; intros l H;
  match type of H with
  | bind (body_innerHTML ?page) _ = _ =>
      destruct (body_innerHTML page); cbv beta iota delta [bind] in H;
      [|discriminate H]
  end;
  apply Returned_inj in H; subst l; apply Forall_slice0.

Lemma Zhihu_videos_filtered (page : Page) :
  Forall (fun v => truthy v = true) (Zhihu.extractVideos rx page).
Proof.
  unfold Zhihu.extractVideos, Zhihu.extractVideos_script.
  script_Forall. apply Forall_Set_spread. keep_Forall.
Qed.

Lemma Twitter_videos_filtered (page : Page) :
  Forall (fun v => Twitter.isValidVideo v = true)
         (catch (Twitter.videos_script rx page) []).
Proof. unfold Twitter.videos_script. script_Forall. keep_Forall. Qed.

Lemma Xiaohongshu_videos_filtered (page : Page) :
  Forall (fun v => Xiaohongshu.isValidVideo v = true)
         (catch (Xiaohongshu.videos_script rx page) []).
Proof. unfold Xiaohongshu.videos_script. script_Forall. keep_Forall. Qed.

Lemma Generic_videos_filtered (page : Page) :
  Forall (fun v => truthy v = true) (catch (Generic.videos_script rx page) []).
Proof. unfold Generic.videos_script. script_Forall. keep_Forall. Qed.

Lemma Wechat_videos_filtered (page : Page) :
  Forall (fun v => truthy v = true) (catch (Wechat.videos_script rx page) []).
Proof.
  unfold Wechat.videos_script. script_Forall. keep_Forall.
  unfold Wechat.is_video_frame in Hok. apply andb_true_iff in Hok. tauto.
Qed.

Lemma extract_videos_filtered (p : Platform) (page : Page) (url : str) (r : PartialResult) :
  extract (Registry.getCrawler rx p) page url = Returned r ->
  Forall (fun v => video_filter p v = true) (videos_of r).
Proof.
  destruct p; simpl; intros H.
  - unfold Zhihu.extract in H.
    destruct (includes (lit "/p/") url); [|destruct (includes (lit "/answer/") url)].
    + unfold Zhihu.extractArticle in H.
      destruct (Zhihu.title_or_page_title page _); [|discriminate H].
      apply Returned_inj in H. subst r. apply Zhihu_videos_filtered.
    + unfold Zhihu.extractAnswer in H.
      destruct (Zhihu.title_or_page_title page _); [|discriminate H].
      apply Returned_inj in H. subst r. apply Zhihu_videos_filtered.
    + unfold Zhihu.extractGeneric in H.
      destruct (page_title page); [|discriminate H].
      apply Returned_inj in H. subst r. apply Zhihu_videos_filtered.
  - unfold Xiaohongshu.extract in H. apply Returned_inj in H. subst r.
    unfold Xiaohongshu.extract_body.
    destruct (page_title page) as [pageTitle|e]; simpl; [|constructor].
    destruct (includes Xiaohongshu.LOGIN pageTitle
              && negb (includes Xiaohongshu.TITLE_SUFFIX pageTitle)); simpl.
    + constructor.
    + apply Xiaohongshu_videos_filtered.
  - unfold Twitter.extract in H.
    destruct (page_title page); [|discriminate H].
    apply Returned_inj in H. subst r. apply Twitter_videos_filtered.
  - unfold Wechat.extract in H. apply Returned_inj in H. subst r.
    apply Wechat_videos_filtered.
  - unfold Generic.extract in H.
    destruct (page_title page); [|discriminate H].
    apply Returned_inj in H. subst r. apply Generic_videos_filtered.
Qed.

Lemma Forall_filter_truthy (f : str -> bool) (l : list str) :
  (forall x, f x = true -> truthy x = true) ->
  Forall (fun u => truthy u = true) (List.filter f l).
Proof.
  intros Hf. apply Forall_forall. intros x Hx.
  apply filter_In in Hx as [_ Hx]. exact (Hf x Hx).
Qed.

Lemma extract_images_truthy (p : Platform) (page : Page) (url : str) (r : PartialResult) :
  p <> xiaohongshu ->
  extract (Registry.getCrawler rx p) page url = Returned r ->
  Forall (fun u => truthy u = true) (images_of r).
Proof.
  destruct p; simpl; intros Hp H; [| congruence | | |].
  - unfold Zhihu.extract in H.
    destruct (includes (lit "/p/") url); [|destruct (includes (lit "/answer/") url)].
    + unfold Zhihu.extractArticle in H.
      destruct (Zhihu.title_or_page_title page _); [|discriminate H].
      apply Returned_inj in H. subst r.
      apply Forall_filter_truthy. tauto.
    + unfold Zhihu.extractAnswer in H.
      destruct (Zhihu.title_or_page_title page _); [|discriminate H].
      apply Returned_inj in H. subst r.
      apply Forall_filter_truthy. tauto.
    + unfold Zhihu.extractGeneric in H.
      destruct (page_title page); [|discriminate H].
      apply Returned_inj in H. subst r. constructor.
  - unfold Twitter.extract in H.
    destruct (page_title page); [|discriminate H].
    apply Returned_inj in H. subst r.
    apply Forall_filter_truthy. tauto.
  - unfold Wechat.extract in H. apply Returned_inj in H. subst r.
    apply Forall_Set_spread. apply Forall_filter_truthy. tauto.
  - unfold Generic.extract in H.
    destruct (page_title page); [|discriminate H].
    apply Returned_inj in H. subst r.
    apply Forall_slice0. apply Forall_filter_truthy.
    intros x Hx. apply andb_true_iff in Hx as [Hx _].
    apply andb_true_iff in Hx as [Hx _]. exact Hx.
Qed.

End MediaEntries.

(** X12: no result of a crawl through the registry lists an empty string
    as a video, and every video it lists passed the test of its strategy;
    for Twitter and Xiaohongshu that test, [isValidVideo], also keeps every
    [blob:] URL out. *)
Theorem crawl_videos_filtered
        (rx : RegExpEngine) (p : Platform) (url : str) (crawler : PlaywrightCrawler)
        (options : CrawlOptions) (r : CrawlResult) :
  crawl (Registry.getCrawler rx p) url crawler options = Some r ->
  Forall (fun v => video_filter p v = true
                   /\ v <> []
                   /\ (startsWith (lit "blob:") v = false
                       \/ (p <> twitter /\ p <> xiaohongshu)))
         (videos r).
Proof.
  intros H.
  destruct (crawl_result_origin _ url crawler options r H)
    as [(_ & _ & _ & _ & Hv & _) | (page & req & ex & Hex & _ & _ & _ & _ & Hv & _)];
    rewrite Hv; [constructor|].
  pose proof (extract_videos_filtered rx p page req ex Hex) as Hall.
  apply Forall_forall. intros v Hin. rewrite Forall_forall in Hall.
  specialize (Hall v Hin). destruct (video_filter_sound p v Hall) as [Ht Hblob].
  split; [exact Hall|]. split; [|exact Hblob].
  intros ->. discriminate Ht.
Qed.

Lemma crawl_videos_filtered_witness :
  exists r,
    crawl (Registry.getCrawler no_matches unknown) (lit "https://videos.example/")
          (loads video_gallery) default_options
    = Some r
    /\ hd_error (videos r) = Some (lit "/v/a")
    /\ Forall (fun v => v <> []) (videos r).
Proof.
  eexists. split; [reflexivity|]. split; [reflexivity|].
  eapply Forall_impl;
    [|exact (crawl_videos_filtered no_matches unknown (lit "https://videos.example/")
               (loads video_gallery) default_options _ eq_refl)].
  intros v (_ & Hv & _). exact Hv.
Defined.

(** X13: except with the Xiaohongshu strategy, no result of a crawl through
    the registry lists an empty string as an image. *)
Theorem crawl_images_not_empty
        (rx : RegExpEngine) (p : Platform) (url : str) (crawler : PlaywrightCrawler)
        (options : CrawlOptions) (r : CrawlResult) :
  p <> xiaohongshu ->
  crawl (Registry.getCrawler rx p) url crawler options = Some r ->
  Forall (fun u => u <> []) (images r).
Proof.
  intros Hp H.
  destruct (crawl_result_origin _ url crawler options r H)
    as [(_ & _ & _ & Hi & _) | (page & req & ex & Hex & _ & _ & _ & Hi & _)];
    rewrite Hi; [constructor|].
  eapply Forall_impl; [|exact (extract_images_truthy rx p page req ex Hp Hex)].
  intros u Hu ->. discriminate Hu.
Qed.

Lemma crawl_images_not_empty_witness :
  unknown <> xiaohongshu
  /\ crawl (Registry.getCrawler no_matches unknown) (lit "https://blog.example/")
           (loads blog_page) default_options
     = Some blog_result
  /\ Forall (fun u => u <> []) (images blog_result).
Proof.
  split; [discriminate|]. split; [reflexivity|].
  exact (crawl_images_not_empty no_matches unknown (lit "https://blog.example/")
           (loads blog_page) default_options blog_result
           ltac:(discriminate) eq_refl).
Defined.

Example Xiaohongshu_images_may_hold_empty :
  Xiaohongshu.extract no_matches
    {| waitForLoadState := Returned tt;
       page_title := Returned (lit "A note" ++ Xiaohongshu.TITLE_SUFFIX);
       querySelectorAll := fun selector =>
         if String.eqb selector "img"
         then [element None
                 (fun a => if String.eqb a "data-src"
                           then Some (lit "?from=sns-webpic.xhscdn.com")
                           else None)
                 []]
         else [];
       body := Some {| innerHTML := []; innerText := [] |} |}
    note_url
  = Returned {| p_title := Some (lit "A note");
                p_author := Some [];
                p_content := Some [];
                p_images := Some [[]];
                p_videos := Some [];
                p_publishedAt := Some [] |}.
Proof. reflexivity. Qed.

Section TextFields.

Variable rx : RegExpEngine.

Lemma single_spaced_slice0 (n : nat) (s : str) :
  single_spaced s = true -> single_spaced (slice0 n s) = true.
Proof.
  unfold slice0. revert n. induction s as [|c s IH]; intros n H.
  - rewrite firstn_nil. reflexivity.
  - destruct n as [|n]; [reflexivity|].
    simpl in H. apply andb_true_iff in H as [Hc Hs].
    change (firstn (S n) (c :: s)) with (c :: firstn n s).
    simpl. rewrite (IH n Hs), andb_true_r.
    destruct (is_ws c); [|reflexivity].
    apply andb_true_iff in Hc as [Hsp Hnext]. rewrite Hsp. simpl.
    destruct s as [|d s']; [rewrite firstn_nil; reflexivity|].
    destruct n; [reflexivity | exact Hnext].
Qed.

Lemma tidy_slice0 (n : nat) (s : str) : tidy s = true -> tidy (slice0 n s) = true.
Proof.
  unfold tidy. intros H. apply andb_true_iff in H as [Hs Hb].
  rewrite (single_spaced_slice0 n s Hs). simpl.
  destruct s as [|c s]; [unfold slice0; rewrite firstn_nil; reflexivity|].
  destruct n; [reflexivity | exact Hb].
Qed.

Lemma tidy_cleanText (s : str) : tidy (cleanText s) = true.
Proof.
  pose proof (cleanText_normalized s) as H. unfold normalized in H.
  apply andb_true_iff in H as [H _]. exact H.
Qed.

Lemma single_spaced_no_newline (s : str) :
  single_spaced s = true -> ~ In NEWLINE s.
Proof.
  induction s as [|c s IH]; simpl; [tauto|].
  intros H [Hc | Hin].
  - subst c. rewrite is_ws_newline in H. discriminate H.
  - apply andb_true_iff in H as [_ H]. exact (IH H Hin).
Qed.

Lemma or_else_nil (s : str) : or_else (Some s) [] = s.
Proof. destruct s; reflexivity. Qed.

Lemma extract_text_tidy (p : Platform) (page : Page) (url : str) (r : PartialResult) :
  extract (Registry.getCrawler rx p) page url = Returned r ->
  tidy (or_else (p_content r) []) = true
  /\ normalized (or_else (p_author r) []) = true.
Proof.
  destruct p; simpl; intros H.
  - unfold Zhihu.extract in H.
    destruct (includes (lit "/p/") url); [|destruct (includes (lit "/answer/") url)].
    + unfold Zhihu.extractArticle in H.
      destruct (Zhihu.title_or_page_title page _); [|discriminate H].
      apply Returned_inj in H. subst r. cbv beta iota delta [p_content p_author].
      rewrite !or_else_nil. split; [apply tidy_cleanText | apply cleanText_normalized].
    + unfold Zhihu.extractAnswer in H.
      destruct (Zhihu.title_or_page_title page _); [|discriminate H].
      apply Returned_inj in H. subst r. cbv beta iota delta [p_content p_author].
      rewrite !or_else_nil. split; [apply tidy_cleanText | apply cleanText_normalized].
    + unfold Zhihu.extractGeneric in H.
      destruct (page_title page); [|discriminate H].
      apply Returned_inj in H. subst r. cbv beta iota delta [p_content p_author].
      rewrite or_else_nil. split; [apply tidy_slice0, tidy_cleanText | reflexivity].
  - unfold Xiaohongshu.extract in H. apply Returned_inj in H. subst r.
    unfold Xiaohongshu.extract_body.
    destruct (page_title page) as [pageTitle|e];
      cbv beta iota delta [bind catch]; [|split; reflexivity].
    destruct (includes Xiaohongshu.LOGIN pageTitle
              && negb (includes Xiaohongshu.TITLE_SUFFIX pageTitle));
      cbv beta iota delta [p_content p_author]; [split; reflexivity|].
    rewrite !or_else_nil. split; [apply tidy_cleanText | apply cleanText_normalized].
  - unfold Twitter.extract in H.
    destruct (page_title page); [|discriminate H].
    apply Returned_inj in H. subst r. cbv beta iota delta [p_content p_author].
    rewrite !or_else_nil. split; [apply tidy_cleanText | apply cleanText_normalized].
  - unfold Wechat.extract in H. apply Returned_inj in H. subst r.
    cbv beta iota delta [p_content p_author].
    rewrite !or_else_nil. split; [apply tidy_cleanText | apply cleanText_normalized].
  - unfold Generic.extract in H.
    destruct (page_title page); [|discriminate H].
    apply Returned_inj in H. subst r. cbv beta iota delta [p_content p_author].
    rewrite !or_else_nil.
    split; [apply tidy_slice0, tidy_cleanText | apply cleanText_normalized].
Qed.


End TextFields.

(** X14: in every result of a crawl through the registry the content is
    single-spaced, starts with no whitespace and holds no newline (it may end
    in a space where a strategy cut it), and the author, when there is one,
    is a normalized text. *)
Theorem crawl_text_tidy
        (rx : RegExpEngine) (p : Platform) (url : str) (crawler : PlaywrightCrawler)
        (options : CrawlOptions) (r : CrawlResult) :
  crawl (Registry.getCrawler rx p) url crawler options = Some r ->
  single_spaced (content r) = true
  /\ starts_ws (content r) = false
  /\ ~ In NEWLINE (content r)
  /\ normalized (or_else (author r) []) = true.
Proof.
  intros H.
  assert (Htidy : tidy (content r) = true
                  /\ normalized (or_else (author r) []) = true).
  { destruct (crawl_result_origin _ url crawler options r H)
      as [(_ & _ & Hc & _ & _ & Ha)
         | (page & req & ex & Hex & _ & _ & Hc & _ & _ & Ha)];
      rewrite Hc, Ha; [split; reflexivity|].
    exact (extract_text_tidy rx p page req ex Hex). }
  destruct Htidy as [Ht Ha]. unfold tidy in Ht.
  apply andb_true_iff in Ht as [Hs Hb]. apply negb_true_iff in Hb.
  repeat split; try assumption. apply single_spaced_no_newline, Hs.
Qed.

Lemma crawl_text_tidy_witness :
  crawl (Registry.getCrawler no_matches unknown) (lit "https://blog.example/")
        (loads blog_page) default_options
  = Some blog_result
  /\ single_spaced (content blog_result) = true
  /\ starts_ws (content blog_result) = false.
Proof.
  split; [reflexivity|].
  destruct (crawl_text_tidy no_matches unknown (lit "https://blog.example/")
              (loads blog_page) default_options blog_result eq_refl)
    as (Hs & Hb & _).
  split; [exact Hs | exact Hb].
Defined.





(** ** crawlers/xiaohongshu.ts *)

Section XiaohongshuFields.

Variable rx : RegExpEngine.

Lemma author_of_bounded (links : list Element) :
  Xiaohongshu.author_of links = []
  \/ (1 < List.length (Xiaohongshu.author_of links) < 50
      /\ Xiaohongshu.author_of links <> Xiaohongshu.ME
      /\ includes (lit "http") (Xiaohongshu.author_of links) = false
      /\ exists link text,
          In link links /\ textContent link = Some text
          /\ Xiaohongshu.author_of links = trim text).
Proof.
  induction links as [|link rest IH]; [left; reflexivity|].
  simpl. destruct (textContent link) as [text|] eqn:Htext; simpl.
  - destruct (truthy (trim text) && (1 <? List.length (trim text))
              && (List.length (trim text) <? 50)
              && negb (JS.eqb (trim text) Xiaohongshu.ME)
              && negb (includes (lit "http") (trim text))) eqn:Hok.
    + right.
      apply andb_true_iff in Hok as [Hok Hhttp].
      apply andb_true_iff in Hok as [Hok Hme].
      apply andb_true_iff in Hok as [Hok Hhi].
      apply andb_true_iff in Hok as [_ Hlo].
      apply Nat.ltb_lt in Hlo, Hhi. apply negb_true_iff in Hme, Hhttp.
      split; [lia|]. split.
      * intros Heq. apply eqb_eq in Heq. congruence.
      * split; [exact Hhttp|]. exists link, text. auto.
    + destruct IH as [IH | (Hlen & Hme & Hhttp & l & t & Hin & Ht & Heq)];
        [left; exact IH | right].
      repeat split; try assumption; try lia. exists l, t. auto.
  - destruct IH as [IH | (Hlen & Hme & Hhttp & l & t & Hin & Ht & Heq)];
      [left; exact IH | right].
    repeat split; try assumption; try lia. exists l, t. auto.
Qed.

Lemma indexOf_absent (p s : str) : includes p s = false -> Xiaohongshu.indexOf p s = None.
Proof.
  induction s as [|c s IH].
  - simpl. rewrite orb_false_r. intros ->. reflexivity.
  - change (includes p (c :: s)) with (startsWith p (c :: s) || includes p s).
    intros H. apply orb_false_iff in H as [Hs Hi].
    change (Xiaohongshu.indexOf p (c :: s))
      with (if startsWith p (c :: s) then Some 0
            else option_map S (Xiaohongshu.indexOf p s)).
    rewrite Hs, (IH Hi). reflexivity.
Qed.

Lemma time_of_no_marker (allText : str) (patterns : list str) :
  forallb (fun marker => negb (includes marker allText)) patterns = true ->
  Xiaohongshu.time_of rx allText patterns = [].
Proof.
  induction patterns as [|marker rest IH]; simpl; [reflexivity|].
  intros H. apply andb_true_iff in H as [Hm Hrest].
  apply negb_true_iff in Hm. rewrite (indexOf_absent _ _ Hm). apply IH, Hrest.
Qed.

End XiaohongshuFields.

(** X17: the author of a Xiaohongshu result is always shorter than 50
    units: the strategy takes the trimmed text of a profile link only if it
    has 2 to 49 units, and normalizing it does not make it longer. *)
Theorem Xiaohongshu_author_bounded
        (rx : RegExpEngine) (url : str) (crawler : PlaywrightCrawler)
        (options : CrawlOptions) (r : CrawlResult) :
  crawl (Xiaohongshu.XiaohongshuCrawler rx) url crawler options = Some r ->
  List.length (or_else (author r) []) < 50.
Proof.
  intros H.
  destruct (crawl_result_origin _ url crawler options r H)
    as [(_ & _ & _ & _ & _ & Ha) | (page & req & ex & Hex & _ & _ & _ & _ & _ & Ha)];
    rewrite Ha; [simpl; lia|].
  simpl in Hex. unfold Xiaohongshu.extract in Hex.
  apply Returned_inj in Hex. subst ex.
  unfold Xiaohongshu.extract_body.
  destruct (page_title page) as [pageTitle|e];
    cbv beta iota delta [bind catch]; [|simpl; lia].
  destruct (includes Xiaohongshu.LOGIN pageTitle
            && negb (includes Xiaohongshu.TITLE_SUFFIX pageTitle));
    cbv beta iota delta [p_author]; [simpl; lia|].
  rewrite or_else_nil.
  pose proof (cleanText_shorter
                (Xiaohongshu.author_of
                   (querySelectorAll page "a[href*='/user/profile/']"))) as Hlen.
  assert (Hraw : List.length
                   (Xiaohongshu.author_of
                      (querySelectorAll page "a[href*='/user/profile/']")) < 50).
  { destruct (author_of_bounded (querySelectorAll page "a[href*='/user/profile/']"))
      as [Hnil | (Hb & _)]; [rewrite Hnil; simpl|]; lia. }
  lia.
Qed.

Lemma Xiaohongshu_author_bounded_witness :
  exists r,
    crawl (Xiaohongshu.XiaohongshuCrawler no_matches) note_url (loads note_page)
          default_options = Some r
    /\ author r = Some (lit "Alice")
    /\ List.length (or_else (author r) []) < 50.
Proof.
  eexists. split; [reflexivity|]. split; [reflexivity|].
  exact (Xiaohongshu_author_bounded no_matches note_url (loads note_page)
           default_options _ eq_refl).
Defined.

(** X18: when the page is not the login wall and its body text holds none
    of the five time markers, the Xiaohongshu strategy returns an empty
    publication time, whatever the regular-expression engine finds. *)
Theorem Xiaohongshu_no_marker_no_time
        (rx : RegExpEngine) (page : Page) (url : str) (pageTitle : str) (b : Body) :
  page_title page = Returned pageTitle ->
  includes Xiaohongshu.LOGIN pageTitle
  && negb (includes Xiaohongshu.TITLE_SUFFIX pageTitle) = false ->
  body page = Some b ->
  forallb (fun marker => negb (includes marker (innerText b))) Xiaohongshu.timePatterns
  = true ->
  exists r, Xiaohongshu.extract rx page url = Returned r
            /\ p_publishedAt r = Some [].
Proof.
  intros Htitle Hwall Hbody Hmarkers.
  unfold Xiaohongshu.extract, Xiaohongshu.extract_body.
  rewrite Htitle. cbv beta iota delta [bind]. rewrite Hwall.
  eexists. split; [reflexivity|].
  cbv beta iota delta [catch p_publishedAt].
  unfold Xiaohongshu.publishedAt_script, body_innerText. rewrite Hbody.
  cbv beta iota delta [bind]. rewrite (time_of_no_marker rx _ _ Hmarkers).
  reflexivity.
Qed.

Lemma Xiaohongshu_no_marker_no_time_witness :
  exists r, Xiaohongshu.extract no_matches note_page note_url = Returned r
            /\ p_publishedAt r = Some [].
Proof.
  exact (Xiaohongshu_no_marker_no_time no_matches note_page note_url
           (lit "A note" ++ Xiaohongshu.TITLE_SUFFIX)
           {| innerHTML := []; innerText := lit "A note by Alice" |}
           eq_refl eq_refl eq_refl eq_refl).
Defined.

(** ** server.ts *)

Section Routes.

Variable URL_hostname : str -> option str.
Variable URL_error : str -> str.
Variable rx : RegExpEngine.

Lemma crawl_failure_has_error
      (self : BaseCrawler) (url : str) (crawler : PlaywrightCrawler)
      (options : CrawlOptions) (r : CrawlResult) :
  crawl self url crawler options = Some r ->
  success r = false ->
  title r = [] /\ content r = [] /\ images r = [] /\ videos r = []
  /\ exists message_, error r = Some message_.
Proof.
  unfold crawl. intros Hr Hfail.
  destruct (crawler (config self options) url) as [|ev rest]; [discriminate Hr|].
  rewrite (proj1 (run_cons self url ev rest)) in Hr. unfold first_result in Hr.
  destruct ev as [now page request_url | now request_url message_ | now];
    simpl in Hr.
  - unfold requestHandler in Hr.
    destruct (handle self page request_url); simpl in Hr; injection Hr as <-;
      [discriminate Hfail|].
    do 4 (split; [reflexivity|]). eexists; reflexivity.
  - injection Hr as <-. do 4 (split; [reflexivity|]). eexists; reflexivity.
  - injection Hr as <-. do 4 (split; [reflexivity|]). eexists; reflexivity.
Qed.

Lemma detectPlatform_platform_of (url : str) :
  detectPlatform URL_hostname url
  = option_map (fun _ => platform_of URL_hostname url) (URL_hostname url).
Proof.
  unfold detectPlatform, platform_of.
  destruct (URL_hostname url); [|reflexivity].
  simpl. rewrite classify_host_first_match. reflexivity.
Qed.

Lemma all_Forall2 {A B : Type} (f : nat -> A -> option B) (l : list A) :
  forall i results,
    Server.all (Server.map_indexed f i l) = Some results ->
    Forall2 (fun x r => exists j, f j x = Some r) l results.
Proof.
  induction l as [|x l IH]; intros i results H; simpl in H.
  - injection H as <-. constructor.
  - destruct (f i x) as [v|] eqn:Hv; [|discriminate H].
    destruct (Server.all (Server.map_indexed f (S i) l)) as [vs|] eqn:Hvs;
      [|discriminate H].
    injection H as <-. constructor; [exists i; exact Hv | exact (IH _ _ Hvs)].
Qed.

Variable crawlers : nat -> PlaywrightCrawler.
Variable clock : nat -> N.

Lemma batch_item_result (timeout : N) (cookies : Cookies) (i : nat) (url : str)
      (r : CrawlResult) :
  Server.batch_item URL_hostname URL_error rx crawlers clock timeout cookies i url
  = Some r ->
  platform r = platform_of URL_hostname url
  /\ (success r = false ->
      title r = [] /\ content r = [] /\ images r = [] /\ videos r = []
      /\ exists message_, error r = Some message_)
  /\ (URL_hostname url = None ->
      success r = false /\ Types.url r = url /\ error r = Some (URL_error url)).
Proof.
  unfold Server.batch_item. rewrite detectPlatform_platform_of.
  destruct (URL_hostname url) as [h|] eqn:Hh; simpl; intros H.
  - split; [|split; [|discriminate]].
    + unfold crawl in H. rewrite (result_platform _ url _ r H).
      destruct (platform_of URL_hostname url); reflexivity.
    + exact (crawl_failure_has_error _ url _ _ r H).
  - injection H as <-. simpl. split; [unfold platform_of; rewrite Hh; reflexivity|].
    split; intros _; repeat split; eexists; reflexivity.
Qed.

End Routes.

(** X19: the reply of the batch route to between 1 and 10 URLs has status
    200 and one result per URL, in the order of the URLs; each result is
    tagged with the platform of its URL ([unknown] for a string that is no
    URL, whose result is a failure carrying that string and the message of
    the parser), and each failed result has empty content fields and an
    error. *)
Theorem batch_route_results
        (URL_hostname : str -> option str) (URL_error : str -> str)
        (rx : RegExpEngine) (crawlers : nat -> PlaywrightCrawler) (clock : nat -> N)
        (request : Server.BatchRequest) (l : list str)
        (reply : Server.Reply (list CrawlResult)) :
  Server.urls request = Some l ->
  1 <= List.length l <= 10 ->
  Server.batch_route URL_hostname URL_error rx crawlers clock request = Some reply ->
  Server.status reply = 200%N
  /\ Server.code (Server.payload reply) = 200%N
  /\ exists results,
      Server.data (Server.payload reply) = Some results
      /\ Forall2 (fun url r =>
                    platform r = platform_of URL_hostname url
                    /\ (success r = false ->
                        title r = [] /\ content r = [] /\ images r = []
                        /\ videos r = [] /\ exists message_, error r = Some message_)
                    /\ (URL_hostname url = None ->
                        success r = false /\ Types.url r = url
                        /\ error r = Some (URL_error url)))
                 l results.
Proof.
  intros Hurls [Hlo Hhi]. unfold Server.batch_route. rewrite Hurls.
  destruct l as [|u l']; [simpl in Hlo; lia|].
  assert (Hlen : (10 <? List.length (u :: l')) = false)
    by (apply Nat.ltb_ge; exact Hhi).
  rewrite Hlen.
  destruct (Server.all _) as [results|] eqn:Hall; [|discriminate].
  intros H. injection H as <-. simpl.
  split; [reflexivity|]. split; [reflexivity|].
  exists results. split; [reflexivity|].
  apply all_Forall2 in Hall.
  eapply Forall2_impl; [|exact Hall].
  intros url r [j Hj]. exact (batch_item_result _ _ _ _ _ _ _ _ _ _ Hj).
Qed.

Lemma batch_route_results_witness :
  exists reply,
    Server.batch_route https_hostname invalid_URL no_matches
                       (fun _ => loads blog_page) (fun _ => 7%N)
                       {| Server.urls := Some [lit "https://blog.example/"; lit "nonsense"];
                          Server.batch_timeout := None;
                          Server.batch_cookies := CookiesUndefined |}
    = Some reply
    /\ Server.status reply = 200%N
    /\ option_map (List.map success) (Server.data (Server.payload reply))
       = Some [true; false].
Proof.
  eexists. split; [reflexivity|].
  split; [|reflexivity].
  refine (proj1 (batch_route_results https_hostname invalid_URL no_matches
                   (fun _ => loads blog_page) (fun _ => 7%N)
                   {| Server.urls := Some [lit "https://blog.example/"; lit "nonsense"];
                      Server.batch_timeout := None;
                      Server.batch_cookies := CookiesUndefined |}
                   [lit "https://blog.example/"; lit "nonsense"] _
                   eq_refl _ eq_refl)).
  simpl. lia.
Defined.

(** X20: the reply of the crawl route to a well-formed URL has HTTP status
    200 whether the crawl succeeded or not; its body holds the result of a
    crawl by the strategy of the URL's platform, with the timeout given or
    30000, and has code 200 for a success and 500 for a failure, with a
    message that is never empty. *)
Theorem crawl_route_reply
        (URL_hostname : str -> option str) (URL_error : str -> str)
        (rx : RegExpEngine) (crawler : PlaywrightCrawler)
        (request : Server.CrawlRequest) (url hostname : str)
        (reply : Server.Reply CrawlResult) :
  Server.url request = Some url ->
  url <> [] ->
  URL_hostname url = Some hostname ->
  Server.crawl_route URL_hostname URL_error rx crawler request = Some reply ->
  Server.status reply = 200%N
  /\ exists r,
      Server.data (Server.payload reply) = Some r
      /\ crawl (Registry.getCrawler rx (first_match signatures (toLowerCase hostname)))
               url crawler
               {| timeout := Some match Server.timeout request with
                                  | Some t => t
                                  | None => 30000%N
                                  end;
                  cookies := Server.cookies request |}
         = Some r
      /\ platform r = first_match signatures (toLowerCase hostname)
      /\ Server.code (Server.payload reply) = (if success r then 200 else 500)%N
      /\ Server.message (Server.payload reply) <> [].
Proof.
  intros Hurl Hne Hhost. unfold Server.crawl_route.
  rewrite Hurl. destruct url as [|c url']; [congruence|].
  rewrite Hhost. unfold detectPlatform. rewrite Hhost, classify_host_first_match.
  set (p := first_match signatures (toLowerCase hostname)).
  fold (Server.timeout_or_default (Server.timeout request)).
  destruct (crawl (Registry.getCrawler rx p) (c :: url') crawler _) as [r|] eqn:Hr;
    [|discriminate].
  assert (Hp : platform r = p).
  { unfold crawl in Hr. rewrite (result_platform _ _ _ r Hr). destruct p; reflexivity. }
  destruct (success r) eqn:Hok; intros H; injection H as <-; simpl;
    (split; [reflexivity|]); exists r; rewrite Hok;
    repeat split; try assumption; try discriminate.
  destruct (error r) as [[|x m]|]; discriminate.
Qed.

Lemma crawl_route_reply_witness :
  exists reply,
    Server.crawl_route https_hostname invalid_URL no_matches navigation_fails
                       {| Server.url := Some (lit "https://x.com/u/status/1");
                          Server.timeout := Some 5000%N;
                          Server.cookies := CookiesUndefined |}
    = Some reply
    /\ Server.status reply = 200%N
    /\ Server.code (Server.payload reply) = 500%N
    /\ Server.message (Server.payload reply) = lit "Navigation timed out".
Proof.
  eexists. split; [reflexivity|].
  split; [|split; reflexivity].
  refine (proj1 (crawl_route_reply https_hostname invalid_URL no_matches
                   navigation_fails
                   {| Server.url := Some (lit "https://x.com/u/status/1");
                      Server.timeout := Some 5000%N;
                      Server.cookies := CookiesUndefined |}
                   (lit "https://x.com/u/status/1") (lit "x.com") _
                   eq_refl _ eq_refl eq_refl)).
  discriminate.
Defined.

(** X21: both routes refuse a request they cannot serve with status 400 and
    no data, whatever the engine would do, so without a crawl: the crawl
    route when the URL is missing, empty or rejected by the parser, the batch
    route when the list is missing, empty or longer than 10. *)
Theorem routes_reject
        (URL_hostname : str -> option str) (URL_error : str -> str)
        (rx : RegExpEngine) :
  (forall request,
      match Server.url request with
      | None | Some [] => true
      | Some url => match URL_hostname url with None => true | Some _ => false end
      end = true ->
      exists text,
        forall crawler,
          Server.crawl_route URL_hostname URL_error rx crawler request
          = Some (Server.rejected text))
  /\ (forall request,
         match Server.urls request with
         | None | Some [] => true
         | Some l => 10 <? List.length l
         end = true ->
         exists text,
           forall crawlers clock,
             Server.batch_route URL_hostname URL_error rx crawlers clock request
             = Some (Server.rejected text)).
Proof.
  split; intros request H.
  - unfold Server.crawl_route.
    destruct (Server.url request) as [[|c u]|]; try (eexists; reflexivity).
    destruct (URL_hostname (c :: u)); [discriminate H|]. eexists; reflexivity.
  - unfold Server.batch_route.
    destruct (Server.urls request) as [[|u l]|]; try (eexists; reflexivity).
    rewrite H. eexists; reflexivity.
Qed.

Section Pending.

Lemma all_pending {A : Type} (promises : list (option A)) :
  Server.all promises = None <-> In None promises.
Proof.
  induction promises as [|[v|] rest IH]; simpl.
  - split; [discriminate | tauto].
  - destruct (Server.all rest) as [vs|].
    + split; [discriminate|]. intros [H | H]; [discriminate H|].
      apply IH in H. discriminate H.
    + split; [intros _; right; apply IH; reflexivity | reflexivity].
  - split; [intros _; left; reflexivity | reflexivity].
Qed.

Lemma In_map_indexed {A B : Type} (f : nat -> A -> B) (l : list A) (y : B) :
  forall i,
    In y (Server.map_indexed f i l)
    <-> exists j x, nth_error l j = Some x /\ y = f (i + j) x.
Proof.
  induction l as [|x l IH]; intros i; simpl.
  - split; [tauto|]. intros (j & x & Hj & _). destruct j; discriminate Hj.
  - rewrite IH. split.
    + intros [<- | (j & x' & Hj & ->)].
      * exists 0, x. rewrite Nat.add_0_r. split; reflexivity.
      * exists (S j), x'. rewrite Nat.add_succ_r. split; [exact Hj | reflexivity].
    + intros ([|j] & x' & Hj & ->).
      * left. simpl in Hj. injection Hj as <-. rewrite Nat.add_0_r. reflexivity.
      * right. exists j, x'. rewrite Nat.add_succ_r. split; [exact Hj | reflexivity].
Qed.

End Pending.

(** X22: the batch route answers a list of 1 to 10 URLs unless the run of
    the engine for one of its well-formed URLs makes no callback at all: it
    waits for every crawl, and a string that is no URL never keeps it
    waiting. *)
Theorem batch_route_pending_iff
        (URL_hostname : str -> option str) (URL_error : str -> str)
        (rx : RegExpEngine) (crawlers : nat -> PlaywrightCrawler) (clock : nat -> N)
        (request : Server.BatchRequest) (l : list str) :
  Server.urls request = Some l ->
  1 <= List.length l <= 10 ->
  (Server.batch_route URL_hostname URL_error rx crawlers clock request = None
   <-> exists j url hostname,
        nth_error l j = Some url
        /\ URL_hostname url = Some hostname
        /\ crawlers j
             (config (Registry.getCrawler rx (platform_of URL_hostname url))
                     {| timeout := Some (Server.timeout_or_default
                                           (Server.batch_timeout request));
                        cookies := Server.batch_cookies request |})
             url
           = []).
Proof.
  intros Hurls [Hlo Hhi]. unfold Server.batch_route. rewrite Hurls.
  destruct l as [|u l']; [simpl in Hlo; lia|].
  assert (Hlen : (10 <? List.length (u :: l')) = false)
    by (apply Nat.ltb_ge; exact Hhi).
  rewrite Hlen.
  set (item := Server.batch_item URL_hostname URL_error rx crawlers clock
                 (Server.timeout_or_default (Server.batch_timeout request))
                 (Server.batch_cookies request)).
  assert (Hitem : forall j url,
             item j url = None
             <-> exists hostname,
                 URL_hostname url = Some hostname
                 /\ crawlers j
                      (config (Registry.getCrawler rx (platform_of URL_hostname url))
                              {| timeout := Some (Server.timeout_or_default
                                                    (Server.batch_timeout request));
                                 cookies := Server.batch_cookies request |})
                      url
                    = []).
  { intros j url. unfold item, Server.batch_item.
    rewrite detectPlatform_platform_of.
    destruct (URL_hostname url) as [h|]; simpl.
    - split.
      + intros H. apply crawl_pending_origin in H. exists h. auto.
      + intros (h' & _ & H). apply crawl_pending_origin. exact H.
    - split; [discriminate | intros (h & Hh & _); discriminate Hh]. }
  destruct (Server.all (Server.map_indexed item 0 (u :: l'))) as [results|] eqn:Hall.
  - split; [discriminate|]. intros (j & url & h & Hj & Hh & Hrun).
    assert (Hnone : In None (Server.map_indexed item 0 (u :: l'))).
    { apply In_map_indexed. exists j, url. split; [exact Hj|].
      symmetry. apply Hitem. exists h. auto. }
    apply all_pending in Hnone. congruence.
  - split; [intros _ | reflexivity].
    apply all_pending, In_map_indexed in Hall as (j & url & Hj & Hnone).
    symmetry in Hnone. apply Hitem in Hnone as (h & Hh & Hrun).
    exists j, url, h. auto.
Qed.

Lemma batch_route_pending_iff_witness :
  Server.batch_route https_hostname invalid_URL no_matches (fun _ => hangs)
                     (fun _ => 7%N)
                     {| Server.urls := Some [lit "nonsense"; lit "https://blog.example/"];
                        Server.batch_timeout := None;
                        Server.batch_cookies := CookiesUndefined |}
  = None.
Proof.
  refine (proj2 (batch_route_pending_iff https_hostname invalid_URL no_matches
                   (fun _ => hangs) (fun _ => 7%N)
                   {| Server.urls := Some [lit "nonsense"; lit "https://blog.example/"];
                      Server.batch_timeout := None;
                      Server.batch_cookies := CookiesUndefined |}
                   [lit "nonsense"; lit "https://blog.example/"] eq_refl _)
                (ex_intro _ 1 (ex_intro _ (lit "https://blog.example/")
                   (ex_intro _ (lit "blog.example")
                      (conj eq_refl (conj eq_refl eq_refl)))))).
  simpl. lia.
Defined.

(** ** crawlers/generic.ts *)

(** X23: a result of the generic strategy is bounded in every part: the
    content has at most 10000 units, there are at most 20 images, each of
    fewer than 500 units and none an inline [data:] URL. *)
Theorem Generic_result_bounded
        (rx : RegExpEngine) (url : str) (crawler : PlaywrightCrawler)
        (options : CrawlOptions) (r : CrawlResult) :
  crawl (Generic.GenericCrawler rx) url crawler options = Some r ->
  List.length (content r) <= 10000
  /\ List.length (images r) <= 20
  /\ Forall (fun u => List.length u < 500 /\ includes (lit "data:") u = false)
            (images r).
Proof.
  intros H.
  destruct (crawl_result_origin _ url crawler options r H)
    as [(_ & _ & Hc & Hi & _) | (page & req & ex & Hex & _ & _ & Hc & Hi & _)];
    rewrite Hc, Hi.
  - split; [apply Nat.le_0_l|]. split; [apply Nat.le_0_l | constructor].
  - simpl in Hex. unfold Generic.extract in Hex.
    destruct (page_title page); [|discriminate Hex].
    apply Returned_inj in Hex. subst ex.
    cbv beta iota delta [p_content p_images images_of evalAll catch].
    rewrite or_else_nil.
    split; [apply length_slice0|]. split; [apply length_slice0|].
    unfold Generic.image_sources. apply Forall_slice0.
    apply Forall_forall. intros u Hu. apply filter_In in Hu as [_ Hu].
    apply andb_true_iff in Hu as [Hu Hlen]. apply andb_true_iff in Hu as [_ Hdata].
    apply Nat.ltb_lt in Hlen. apply negb_true_iff in Hdata. split; assumption.
Qed.

Lemma Generic_result_bounded_witness :
  crawl (Generic.GenericCrawler no_matches) (lit "https://blog.example/")
        (loads blog_page) default_options
  = Some blog_result
  /\ List.length (content blog_result) <= 10000
  /\ List.length (images blog_result) <= 20.
Proof.
  split; [reflexivity|].
  destruct (Generic_result_bounded no_matches (lit "https://blog.example/")
              (loads blog_page) default_options blog_result eq_refl)
    as (Hc & Hi & _).
  split; [exact Hc | exact Hi].
Defined.
